(** * Policy storage adapter (src/adapter.ts): a shallow embedding

    The adapter translates between policy rules of the engine (a rule-type
    marker [ptype] and a tuple of strings) and rows of one table reached
    through an object-relational mapper.  This file embeds the adapter's
    methods over an explicit model of the table and proves the properties
    of the load, save, add and remove paths. *)

From stdpp Require Import gmap strings list fin_maps pretty.

Open Scope string_scope.
Open Scope list_scope.
Open Scope nat_scope.

(** ** JavaScript values held in row objects *)

Inductive value :=
  | Undefined
  | Null
  | Str (s : string)
  | Num (n : nat).

#[global] Instance value_eq_dec : EqDecision value.
Proof. solve_decision. Defined.

(** Truthiness, as used by [filter(n => n)]. *)
Definition truthy (v : value) : bool :=
  match v with
  | Undefined | Null => false
  | Str s => negb (String.eqb s "")
  | Num n => negb (Nat.eqb n 0)
  end.

(** [String(v)], the conversion applied by [+] to a non-string operand. *)
Definition toString (v : value) : string :=
  match v with
  | Undefined => "undefined"
  | Null => "null"
  | Str s => s
  | Num n => pretty n
  end.

(** [Array.prototype.join]: [null] and [undefined] elements print as the
    empty string, the others as [String(v)]. *)
Definition join_elem (v : value) : string :=
  match v with
  | Undefined | Null => ""
  | _ => toString v
  end.

Fixpoint join (sep : string) (l : list value) : string :=
  match l with
  | [] => ""
  | [v] => join_elem v
  | v :: l' => join_elem v +:+ sep +:+ join sep l'
  end.

(** ** Row objects

    A [CasbinRule] instance keeps its attributes in [dataValues], a plain
    object used as a map from attribute name to value.  Reading an attribute
    that has no key gives [undefined]. *)

Abbreviation CasbinRule := (gmap string value).

Definition getDataValue (line : CasbinRule) (key : string) : value :=
  default Undefined (line !! key).

Definition setDataValue (line : CasbinRule) (key : string) (v : value) : CasbinRule :=
  <[key := v]> line.

(** [rule[k]] on a [string[]]: the element, or [undefined] out of range. *)
Definition index (rule : list string) (k : nat) : value :=
  match rule !! k with
  | Some s => Str s
  | None => Undefined
  end.

(** [Object.keys(o)].  The order of the keys is the map's own; the adapter
    only uses the keys to build a conjunction, where order plays no role. *)
Definition Object_keys (o : gmap string value) : list string :=
  (map_to_list o).*1.

(** Modelled from the spec: the attribute list of the [CasbinRule] class
    (casbinRule.ts is not among the sources).  The spec's storage schema has
    the surrogate [id], the marker [ptype] and the six optional fields
    [v0] .. [v5], and no other column. *)
Definition vkeys : list string := ["v0"; "v1"; "v2"; "v3"; "v4"; "v5"].
Definition columns : list string := "id" :: "ptype" :: vkeys.

(** ** Storage and the error monad

    The table is the list of its rows in insertion order together with the
    counter the storage draws identifiers from.  Each adapter method runs in
    a state-and-error monad over the table: a raised error keeps the writes
    made before it. *)

Record Table := { rows : list (gmap string value); nextId : nat }.

Definition emptyTable : Table := {| rows := []; nextId := 1 |}.

Inductive error :=
  | TypeError (msg : string)
  | Error (msg : string)
  | QueryError (msg : string).

Inductive result (A : Type) :=
  | Ok (a : A)
  | Throw (e : error).
Arguments Ok {A} a.
Arguments Throw {A} e.

Definition M (A : Type) : Type := Table → result A * Table.

Definition ret {A} (a : A) : M A := λ t, (Ok a, t).
Definition throw {A} (e : error) : M A := λ t, (Throw e, t).
Definition bind {A B} (m : M A) (f : A → M B) : M B :=
  λ t, match m t with
       | (Ok a, t') => f a t'
       | (Throw e, t') => (Throw e, t')
       end.

#[global] Instance M_ret : MRet M := @ret.
#[global] Instance M_bind : MBind M := λ A B f m, bind m f.

(** [for (const x of l) { await body(x) }] *)
Fixpoint forEach {A} (l : list A) (body : A → M unit) : M unit :=
  match l with
  | [] => mret ()
  | x :: l' => body x;; forEach l' body
  end.

(** Iterating [undefined] raises a [TypeError]. *)
Definition iterate {A} (o : option (list A)) : M (list A) :=
  match o with
  | Some l => mret l
  | None => throw (TypeError "undefined is not iterable")
  end.

(** *** The mapper's operations on the table *)

(** [new Rule()]: a fresh instance holds only its primary key, set to
    [null]. *)
Definition new_Rule : CasbinRule := {["id" := Null]}.

(** A value as the storage keeps it: an [undefined] attribute is stored as
    NULL. *)
Definition store_value (v : value) : value :=
  match v with
  | Undefined => Null
  | _ => v
  end.

(** The row an INSERT of [line] creates: the storage assigns [id], and every
    column without a value is NULL. *)
Definition stored (id : nat) (line : CasbinRule) : gmap string value :=
  <["id" := Num id]>
    (foldr (λ c row, <[c := store_value (getDataValue line c)]> row) ∅ ("ptype" :: vkeys)).

(** [line.save()] on a new instance. *)
Definition save (line : CasbinRule) : M unit :=
  λ t, (Ok (), {| rows := rows t ++ [stored (nextId t) line];
                  nextId := S (nextId t) |}).

(** [Rule.findAll()]: every row, in the storage's order. *)
Definition findAll : M (list CasbinRule) :=
  λ t, (Ok (rows t), t).

(** [Rule.sync()]: creates the table when absent; the table of an open
    adapter exists, and is left as it is. *)
Definition sync : M unit := mret ().

(** A row satisfies a [where] object when every key of the object holds
    that value in the row (a [null] value reads IS NULL). *)
Definition sql_match (where_ : gmap string value) (row : gmap string value) : bool :=
  bool_decide (map_Forall (λ key v, row !! key = Some v) where_).

Definition where_valid (where_ : gmap string value) : bool :=
  bool_decide (map_Forall (λ _ v, v ≠ Undefined) where_).

(** [Rule.destroy({where, truncate})]: with [truncate] the table is emptied
    and its identifier counter restarts; otherwise the rows satisfying
    [where] are deleted.  An [undefined] value in [where] is refused. *)
Definition destroy (where_ : gmap string value) (truncate : bool) : M unit :=
  λ t, if truncate then (Ok (), emptyTable)
       else if where_valid where_ then
         (Ok (), {| rows := filter (λ row, sql_match where_ row = false) (rows t);
                    nextId := nextId t |})
       else (Throw (QueryError "WHERE parameter has invalid undefined value"), t).

(** ** The policy model of the engine

    [model.model] maps a section name to a map from rule-type marker to an
    assertion; both maps iterate in insertion order. *)

Record Assertion := { policy : list (list string) }.

Abbreviation AstMap := (list (string * Assertion)).

Record Model := { model : list (string * AstMap) }.

Fixpoint Map_get {V} (m : list (string * V)) (key : string) : option V :=
  match m with
  | [] => None
  | (k, v) :: m' => if String.eqb k key then Some v else Map_get m' key
  end.

(** ** The adapter *)

Section Adapter.

(** [Helper.loadPolicyLine] of the engine: parses one rule line into the
    model.  It belongs to the engine, so the adapter is embedded over an
    arbitrary one. *)
Variable Helper_loadPolicyLine : string → Model → Model.

Definition createTable : M unit := sync.

Definition dropTable : M unit := destroy ∅ true.

(** The fields of a row that [loadPolicyLine] keeps. *)
Definition lineFields (line : CasbinRule) : list value :=
  List.filter truthy
    [getDataValue line "v0"; getDataValue line "v1"; getDataValue line "v2";
     getDataValue line "v3"; getDataValue line "v4"; getDataValue line "v5"].

(** The text [loadPolicyLine] builds in [result]. *)
Definition policyLine (line : CasbinRule) : string :=
  toString (getDataValue line "ptype") +:+ ", " +:+ join ", " (lineFields line).

Definition loadPolicyLine (line : CasbinRule) (m : Model) : Model :=
  let result := policyLine line in
  Helper_loadPolicyLine result m.

Definition loadPolicy (m : Model) : M Model :=
  lines ← findAll;
  mret (foldl (λ m line, loadPolicyLine line m) m lines).

Definition savePolicyLine (ptype : string) (rule : list string) : CasbinRule :=
  let line := new_Rule in
  let line := setDataValue line "ptype" (Str ptype) in
  let line := if 0 <? length rule then setDataValue line "v0" (index rule 0) else line in
  let line := if 1 <? length rule then setDataValue line "v1" (index rule 1) else line in
  let line := if 2 <? length rule then setDataValue line "v2" (index rule 2) else line in
  let line := if 3 <? length rule then setDataValue line "v3" (index rule 3) else line in
  let line := if 4 <? length rule then setDataValue line "v4" (index rule 4) else line in
  let line := if 5 <? length rule then setDataValue line "v5" (index rule 5) else line in
  line.

(** The loop [savePolicy] runs over the map of a section, once for [p] and
    once for [g]. *)
Definition saveSection (astMap : AstMap) : M unit :=
  forEach astMap (λ '(ptype, ast),
    forEach (policy ast) (λ rule,
      let line := savePolicyLine ptype rule in
      save line)).

Definition savePolicy (m : Model) : M bool :=
  dropTable;;
  createTable;;
  astMap ← iterate (Map_get (model m) "p");
  saveSection astMap;;
  astMap ← iterate (Map_get (model m) "g");
  saveSection astMap;;
  mret true.

Definition addPolicy (sec ptype : string) (rule : list string) : M unit :=
  let line := savePolicyLine ptype rule in
  save line.

(** The [where] object [removePolicy] fills from the keys of
    [line.dataValues]. *)
Definition removePolicy_where (line : CasbinRule) : gmap string value :=
  foldl (λ where_ key, <[key := getDataValue line key]> where_) ∅
    (filter (λ key, key ≠ "id") (Object_keys line)).

Definition removePolicy (sec ptype : string) (rule : list string) : M unit :=
  let line := savePolicyLine ptype rule in
  let where_ := removePolicy_where line in
  destroy where_ false.

Definition removeFilteredPolicy (sec ptype : string) (fieldIndex : nat)
    (fieldValues : list string) : M unit :=
  throw (Error "not implemented").

End Adapter.

(** ** Reference definitions for the statements *)

(** The cell of column [v_k] for a rule: its [k]-th element, else NULL. *)
Definition cell (rule : list string) (k : nat) : value :=
  match rule !! k with
  | Some s => Str s
  | None => Null
  end.

(** The (ptype, tuple) pairs of a section, in the map's iteration order and
    then each list's order. *)
Definition pairsOf (astMap : AstMap) : list (string * list string) :=
  astMap ≫= (λ '(ptype, ast), (λ rule, (ptype, rule)) <$> policy ast).

(** The pairs a model holds in its [p] and [g] sections, [p] first. *)
Definition modelPairs (m : Model) : list (string * list string) :=
  pairsOf (default [] (Map_get (model m) "p")) ++
  pairsOf (default [] (Map_get (model m) "g")).

(** The (ptype, tuple) pair [loadPolicyLine] reconstructs from a row. *)
Definition loadedPair (row : CasbinRule) : value * list value :=
  (getDataValue row "ptype", lineFields row).

Definition loadedPairs (t : Table) : list (value * list value) :=
  loadedPair <$> rows t.

Definition rulePair (pr : string * list string) : value * list value :=
  (Str pr.1, Str <$> pr.2).

(** The rule line of the textual format: [ptype, v0, ..., vk]. *)
Definition ruleLine (pr : string * list string) : string :=
  pr.1 +:+ ", " +:+ join ", " (Str <$> pr.2).

(** The rows a sequence of inserts appends, identifiers counted from
    [id]. *)
Fixpoint insertedRows (id : nat) (prs : list (string * list string))
    : list (gmap string value) :=
  match prs with
  | [] => []
  | (ptype, rule) :: prs' =>
      stored id (savePolicyLine ptype rule) :: insertedRows (S id) prs'
  end.

(** The delete predicate in the spec's words: [ptype] and each populated
    field of the positional mapping of [rule] are equal to the row's. *)
Definition spec_match (ptype : string) (rule : list string)
    (row : gmap string value) : Prop :=
  row !! "ptype" = Some (Str ptype) ∧
  Forall (λ '(key, s), row !! key = Some (Str s)) (zip vkeys rule).

#[global] Instance spec_match_dec ptype rule row :
  Decision (spec_match ptype rule row).
Proof.
  unfold spec_match. apply and_dec; [apply _|].
  apply Forall_dec. intros [key s]. apply _.
Defined.

(** A pair the save path keeps whole. *)
Definition storable (pr : string * list string) : Prop :=
  length pr.2 ≤ 6 ∧ Forall (λ s, s ≠ "") pr.2.

(** The rows of the table that satisfy the delete predicate of a pair. *)
Definition matching (ptype : string) (rule : list string) (t : Table)
    : list (gmap string value) :=
  filter (spec_match ptype rule) (rows t).

(** The round trip of [savePolicy] and [loadPolicy] on a model, as a set of
    pairs. *)
Definition roundtrip_as_set (m : Model) (t : Table) : Prop :=
  ∃ t', savePolicy m t = (Ok true, t') ∧
        ∀ pr, pr ∈ loadedPairs t' ↔ pr ∈ rulePair <$> modelPairs m.

(** The round trip of [addPolicy] and [loadPolicy] on one pair. *)
Definition roundtrip_one (ptype : string) (rule : list string) (t : Table) : Prop :=
  ∃ row, rows (addPolicy "p" ptype rule t).2 = rows t ++ [row] ∧
         loadedPair row = rulePair (ptype, rule).

(** The elements of a tuple that come back from a saved row: the first
    six, without the empty strings. *)
Definition kept (rule : list string) : list string :=
  filter (λ s, s ≠ "") (take 6 rule).

Definition keptPair (pr : string * list string) : string * list string :=
  (pr.1, kept pr.2).

(** *** Well-formed tables

    A row is well formed below [bound] when its [id] is a number below
    [bound], its [ptype] is a string, and its six fields are those of a
    tuple of at most six strings filled in from the front, NULL after. *)
Definition row_ok (bound : nat) (row : gmap string value) : Prop :=
  (∃ n, row !! "id" = Some (Num n) ∧ n < bound) ∧
  (∃ p, row !! "ptype" = Some (Str p)) ∧
  (∃ fields : list string,
     length fields ≤ 6 ∧
     ∀ k key, vkeys !! k = Some key → row !! key = Some (cell fields k)).

Definition row_id (row : gmap string value) : value := getDataValue row "id".

Definition table_ok (t : Table) : Prop :=
  Forall (row_ok (nextId t)) (rows t) ∧ NoDup (row_id <$> rows t).

(** The calls the engine makes on an open adapter. *)
Inductive request :=
  | LoadPolicy (m : Model)
  | SavePolicy (m : Model)
  | AddPolicy (sec ptype : string) (rule : list string)
  | RemovePolicy (sec ptype : string) (rule : list string)
  | RemoveFilteredPolicy (sec ptype : string) (fieldIndex : nat)
      (fieldValues : list string).

(** The table a call leaves, whether it returns or raises. *)
Definition serve (H : string → Model → Model) (r : request) (t : Table) : Table :=
  match r with
  | LoadPolicy m => (loadPolicy H m t).2
  | SavePolicy m => (savePolicy m t).2
  | AddPolicy sec ptype rule => (addPolicy sec ptype rule t).2
  | RemovePolicy sec ptype rule => (removePolicy sec ptype rule t).2
  | RemoveFilteredPolicy sec ptype fieldIndex fieldValues =>
      (removeFilteredPolicy sec ptype fieldIndex fieldValues t).2
  end.

Definition serveAll (H : string → Model → Model) (rs : list request) (t : Table)
    : Table :=
  foldl (λ t r, serve H r t) t rs.

(** ** Opening and closing an adapter

    The methods that open and close an adapter only call the mapper.  They
    are embedded over a world that records each call reaching the mapper, in
    order, with the objects and classes created so far and the static
    registry [modelMap]; whether a call fails is left to an arbitrary
    [fails]. *)

Module Connection.

Record ISequelizeUriConfig := {
  url : string;
  logging : bool;
  pool_max : N;
  pool_min : N;
  pool_idle : N
}.

(** The class of the rows: [CasbinRule] itself, or a class extending one. *)
Inductive RuleClass :=
  | CasbinRuleClass
  | Extends (parent : RuleClass) (n : nat).

#[global] Instance RuleClass_eq_dec : EqDecision RuleClass.
Proof. solve_decision. Defined.

(** The calls that reach the mapper; a [Sequelize] object is named by the
    reference it got when it was created. *)
Inductive call :=
  | New_Sequelize (config : ISequelizeUriConfig) (ref : nat)
  | Authenticate (ref : nat)
  | Query (ref : nat) (sql : string)
  | Close (ref : nat)
  | AddModels (ref : nat) (models : list RuleClass)
  | Sync (cls : RuleClass).

Record World := {
  calls : list call;
  objects : nat;
  classes : nat;
  modelMap : gmap nat RuleClass
}.

Definition IO (A : Type) : Type := World → result A * World.

#[global] Instance IO_ret : MRet IO := λ A a w, (Ok a, w).
#[global] Instance IO_bind : MBind IO := λ A B f m w,
  match m w with
  | (Ok a, w') => f a w'
  | (Throw e, w') => (Throw e, w')
  end.

Definition raise {A} (e : error) : IO A := λ w, (Throw e, w).

Record SequelizeAdapter := {
  connStr : string;
  dbSpecified : bool;
  sequelize : option nat
}.

Section Calls.

Variable fails : call → option error.

(** A call on the mapper: recorded, then it returns or raises. *)
Definition perform (c : call) : IO unit :=
  λ w, let w' := {| calls := calls w ++ [c]; objects := objects w;
                    classes := classes w; modelMap := modelMap w |} in
       match fails c with
       | None => (Ok (), w')
       | Some e => (Throw e, w')
       end.

(** [new Sequelize(uriConfig)]: the new object gets the next reference. *)
Definition new_Sequelize (config : ISequelizeUriConfig) : IO nat :=
  λ w, let ref := objects w in
       let c := New_Sequelize config ref in
       match fails c with
       | None => (Ok ref, {| calls := calls w ++ [c]; objects := S ref;
                             classes := classes w; modelMap := modelMap w |})
       | Some e => (Throw e, {| calls := calls w ++ [c]; objects := objects w;
                                classes := classes w; modelMap := modelMap w |})
       end.

(** [ModelFactory(model)]: a new class extending [model]. *)
Definition ModelFactory (model : RuleClass) : IO RuleClass :=
  λ w, (Ok (Extends model (classes w)),
        {| calls := calls w; objects := objects w;
           classes := S (classes w); modelMap := modelMap w |}).

(** [SequelizeAdapter.modelMap.set(key, cls)] *)
Definition modelMap_set (key : nat) (cls : RuleClass) : IO unit :=
  λ w, (Ok (), {| calls := calls w; objects := objects w;
                  classes := classes w; modelMap := <[key := cls]> (modelMap w) |}).

Definition constructor (connStr : string) (dbSpecified : bool) : SequelizeAdapter :=
  {| connStr := connStr; dbSpecified := dbSpecified; sequelize := None |}.

Definition getCasbinRuleModel (this : SequelizeAdapter) : IO RuleClass :=
  λ w, let model := sequelize this ≫= (λ s, modelMap w !! s) in
       (Ok (match model with
            | None => CasbinRuleClass
            | Some model => model
            end), w).

Definition createTable (this : SequelizeAdapter) : IO unit :=
  cls ← getCasbinRuleModel this;
  perform (Sync cls).

Definition createDatabase (this : SequelizeAdapter) : IO unit :=
  let uriConfig :=
    {| url := connStr this; logging := false;
       pool_max := 5; pool_min := 0; pool_idle := 10000 |} in
  sequelize ← new_Sequelize uriConfig;
  perform (Authenticate sequelize);;
  perform (Query sequelize "CREATE DATABASE IF NOT EXISTS casbin");;
  perform (Close sequelize).

(** [open] assigns [this.sequelize]; the adapter with the field assigned is
    returned. *)
Definition open (this : SequelizeAdapter) : IO SequelizeAdapter :=
  url ← (if negb (dbSpecified this)
         then createDatabase this;; mret (connStr this +:+ "casbin")
         else mret (connStr this));
  let uriConfig :=
    {| url := url; logging := false;
       pool_max := 5; pool_min := 0; pool_idle := 10000 |} in
  s ← new_Sequelize uriConfig;
  let this := {| connStr := connStr this; dbSpecified := dbSpecified this;
                 sequelize := Some s |} in
  perform (Authenticate s);;
  Rule ← ModelFactory CasbinRuleClass;
  modelMap_set s Rule;;
  perform (AddModels s [Rule]);;
  createTable this;;
  mret this.

Definition newAdapter (connStr : string) (dbSpecified : bool) : IO SequelizeAdapter :=
  let a := constructor connStr dbSpecified in
  a ← open a;
  mret a.

(** [this.sequelize.close()]: on an adapter that was never opened the field
    is [undefined] and reading [close] from it raises. *)
Definition close (this : SequelizeAdapter) : IO unit :=
  match sequelize this with
  | Some s => perform (Close s)
  | None => raise (TypeError "Cannot read property 'close' of undefined")
  end.

End Calls.

(** The world before any adapter was opened. *)
Definition start : World :=
  {| calls := []; objects := 0; classes := 0; modelMap := ∅ |}.

(** The calls [newAdapter] makes on a world whose next reference is [ref]
    and next class is [cls], when none fails. *)
Definition script (connStr : string) (dbSpecified : bool) (ref cls : nat) : list call :=
  let config url :=
    {| url := url; logging := false;
       pool_max := 5; pool_min := 0; pool_idle := 10000 |} in
  let Rule := Extends CasbinRuleClass cls in
  if dbSpecified then
    [New_Sequelize (config connStr) ref; Authenticate ref;
     AddModels ref [Rule]; Sync Rule]
  else
    [New_Sequelize (config connStr) ref; Authenticate ref;
     Query ref "CREATE DATABASE IF NOT EXISTS casbin"; Close ref;
     New_Sequelize (config (connStr +:+ "casbin")) (S ref); Authenticate (S ref);
     AddModels (S ref) [Rule]; Sync Rule].

(** The calls an application makes to open and close adapters. *)
Inductive session_call :=
  | Session_newAdapter (connStr : string) (dbSpecified : bool)
  | Session_close (this : SequelizeAdapter).

(** The world a call leaves, whether it returns or raises. *)
Definition session_step (fails : call → option error) (w : World) (c : session_call)
    : World :=
  match c with
  | Session_newAdapter connStr dbSpecified => (newAdapter fails connStr dbSpecified w).2
  | Session_close this => (close fails this w).2
  end.

Definition session (fails : call → option error) (cs : list session_call) (w : World)
    : World :=
  foldl (session_step fails) w cs.

(** The registry only names objects and classes that exist. *)
Definition registry_ok (w : World) : Prop :=
  ∀ s cls, modelMap w !! s = Some cls →
    s < objects w ∧ ∃ n, cls = Extends CasbinRuleClass n ∧ n < classes w.

End Connection.

(** *** Sample inputs *)

Definition exampleModel : Model :=
  {| model :=
       [("p", [("p", {| policy := [["alice"; "data1"; "read"];
                                    ["bob"; "data2"; "write"]] |})]);
        ("g", [("g", {| policy := [["alice"; "admin"]] |})])] |}.

(** A loader that only records, as section names, the lines it is given. *)
Definition recordingLoader (line : string) (m : Model) : Model :=
  {| model := model m ++ [(line, [])] |}.

(** *** Proof steps used throughout *)

(** Case analysis on a tuple of zero to six elements, or more. *)
Ltac rule_cases rule :=
  destruct rule as [|? [|? [|? [|? [|? [|? [|? ?]]]]]]].

(** Closes a goal from a membership of a literal in a list of other
    literals. *)
Ltac no_member H :=
  repeat (apply elem_of_cons in H as [H|H]; [discriminate H|]);
  by apply elem_of_nil in H.

(** Unfolds a run of the opening and closing methods into its calls. *)
Ltac unfold_io :=
  unfold Connection.newAdapter, Connection.open, Connection.createDatabase,
    Connection.createTable, Connection.getCasbinRuleModel, Connection.close,
    Connection.perform, Connection.new_Sequelize, Connection.ModelFactory,
    Connection.modelMap_set, Connection.constructor, Connection.raise,
    mbind, Connection.IO_bind, mret, Connection.IO_ret in *;
  simpl in *.

(** Case analysis on the outcome of the next call of a run. *)
Ltac next_call fails H :=
  match type of H with
  | context [fails ?c] =>
      lazymatch goal with
      | E : fails c = _ |- _ => rewrite E in H
      | _ => destruct (fails c) eqn:?
      end; simpl in H
  end.




(** ** Row construction *)

Lemma savePolicyLine_id ptype rule :
  savePolicyLine ptype rule !! "id" = Some Null.
Proof. rule_cases rule; vm_compute; reflexivity. Qed.

Lemma savePolicyLine_ptype ptype rule :
  savePolicyLine ptype rule !! "ptype" = Some (Str ptype).
Proof. rule_cases rule; vm_compute; reflexivity. Qed.

Lemma savePolicyLine_field ptype rule k key :
  vkeys !! k = Some key →
  savePolicyLine ptype rule !! key = Str <$> rule !! k.
Proof.
  intros Hk.
  do 6 (destruct k as [|k]; [injection Hk as <-; rule_cases rule; vm_compute; reflexivity|]).
  discriminate.
Qed.

Lemma stored_id id line : stored id line !! "id" = Some (Num id).
Proof. apply lookup_insert_eq. Qed.

Lemma stored_column id line key :
  key ∈ "ptype" :: vkeys →
  stored id line !! key = Some (store_value (getDataValue line key)).
Proof.
  intros Hk. unfold stored, vkeys in *. simpl.
  repeat (apply elem_of_cons in Hk as [->|Hk]; [by simplify_map_eq|]).
  by apply elem_of_nil in Hk.
Qed.

Lemma stored_save_ptype id ptype rule :
  getDataValue (stored id (savePolicyLine ptype rule)) "ptype" = Str ptype.
Proof.
  unfold getDataValue. rewrite stored_column by left.
  unfold getDataValue. by rewrite savePolicyLine_ptype.
Qed.

Lemma stored_save_field id ptype rule k key :
  vkeys !! k = Some key →
  getDataValue (stored id (savePolicyLine ptype rule)) key = cell rule k.
Proof.
  intros Hk. unfold getDataValue at 1.
  rewrite stored_column by (right; by eapply list_elem_of_lookup_2).
  unfold getDataValue, cell. rewrite (savePolicyLine_field _ _ k) by done.
  by destruct (rule !! k).
Qed.

(** ** Running the loops *)

Lemma bind_run {A B} (m : M A) (f : A → M B) t :
  (m ≫= f) t =
  match m t with
  | (Ok a, t') => f a t'
  | (Throw e, t') => (Throw e, t')
  end.
Proof. reflexivity. Qed.

Lemma table_eq t rs n : rows t = rs → nextId t = n → {| rows := rs; nextId := n |} = t.
Proof. destruct t; simpl; congruence. Qed.

Lemma insertedRows_app id prs1 prs2 :
  insertedRows id (prs1 ++ prs2) =
  insertedRows id prs1 ++ insertedRows (id + length prs1) prs2.
Proof.
  revert id. induction prs1 as [|[pt rule] prs1 IH]; intros id; simpl.
  - by rewrite Nat.add_0_r.
  - rewrite IH. do 3 f_equal. lia.
Qed.

Lemma insertedRows_length id prs : length (insertedRows id prs) = length prs.
Proof. revert id. induction prs as [|[pt rule] prs IH]; intros id; simpl; [done|by rewrite IH]. Qed.

Lemma save_rules ptype (rules : list (list string)) t :
  forEach rules (λ rule, let line := savePolicyLine ptype rule in save line) t =
  (Ok (), {| rows := rows t ++ insertedRows (nextId t) ((λ rule, (ptype, rule)) <$> rules);
             nextId := nextId t + length rules |}).
Proof.
  revert t. induction rules as [|rule rules IH]; intros t.
  - simpl. unfold mret, M_ret, ret. f_equal. symmetry.
    apply table_eq; [by rewrite app_nil_r | lia].
  - simpl. rewrite bind_run. unfold save at 1. rewrite IH. simpl.
    f_equal. f_equal; [by rewrite <- app_assoc | lia].
Qed.

Lemma saveSection_run astMap t :
  saveSection astMap t =
  (Ok (), {| rows := rows t ++ insertedRows (nextId t) (pairsOf astMap);
             nextId := nextId t + length (pairsOf astMap) |}).
Proof.
  unfold saveSection. revert t.
  induction astMap as [|[ptype ast] astMap IH]; intros t.
  - simpl. unfold mret, M_ret, ret. f_equal. symmetry.
    apply table_eq; [by rewrite app_nil_r | simpl; lia].
  - simpl. rewrite bind_run, save_rules, IH. simpl.
    unfold pairsOf. simpl. fold (pairsOf astMap).
    rewrite insertedRows_app, length_app, !length_fmap.
    f_equal. f_equal; [by rewrite <- app_assoc | lia].
Qed.

Lemma savePolicy_run m t pm gm :
  Map_get (model m) "p" = Some pm →
  Map_get (model m) "g" = Some gm →
  savePolicy m t =
  (Ok true, {| rows := insertedRows 1 (pairsOf pm ++ pairsOf gm);
               nextId := 1 + length (pairsOf pm ++ pairsOf gm) |}).
Proof.
  intros Hp Hg. unfold savePolicy.
  rewrite Hp, Hg. unfold iterate.
  repeat (rewrite bind_run; unfold mret, M_ret, ret; simpl;
          try rewrite saveSection_run; simpl).
  by rewrite insertedRows_app, length_app.
Qed.

Lemma loadPolicy_run H m t :
  loadPolicy H m t = (Ok (foldl (λ acc l, H l acc) m (policyLine <$> rows t)), t).
Proof.
  unfold loadPolicy. rewrite bind_run. simpl. unfold mret, M_ret, ret.
  do 2 f_equal. generalize m. induction (rows t) as [|r rs IH]; intros m0; [done|].
  simpl. apply IH.
Qed.

(** ** The delete predicate *)

Lemma foldl_insert_lookup (f : string → value) ks (acc : gmap string value) key :
  foldl (λ w k, <[k := f k]> w) acc ks !! key =
  if decide (key ∈ ks) then Some (f key) else acc !! key.
Proof.
  revert acc. induction ks as [|k ks IH]; intros acc.
  - destruct (decide (key ∈ [])) as [Hin|_]; [|done]. by apply elem_of_nil in Hin.
  - cbn [foldl]. rewrite IH.
    destruct (decide (key ∈ ks)) as [Hin|Hnin];
      destruct (decide (key ∈ k :: ks)) as [Hin'|Hnin']; try done.
    + exfalso. apply Hnin'. by right.
    + apply elem_of_cons in Hin' as [->|?]; [apply lookup_insert_eq|done].
    + apply lookup_insert_ne. intros ->. apply Hnin'. by left.
Qed.

(** The [where] object holds every attribute of the line but [id]. *)
Lemma removePolicy_where_delete line :
  removePolicy_where line = delete "id" line.
Proof.
  apply map_eq. intros key. unfold removePolicy_where.
  rewrite foldl_insert_lookup.
  destruct (decide (key = "id")) as [->|Hne].
  - rewrite lookup_delete_eq, decide_False, lookup_empty; [done|].
    rewrite list_elem_of_filter. tauto.
  - rewrite lookup_delete_ne by done. unfold getDataValue, Object_keys.
    destruct (line !! key) as [v|] eqn:Hl.
    + rewrite decide_True; [done|].
      apply list_elem_of_filter. split; [done|].
      apply list_elem_of_fmap. exists (key, v). split; [done|].
      by apply elem_of_map_to_list.
    + rewrite decide_False, lookup_empty; [done|].
      rewrite list_elem_of_filter, list_elem_of_fmap.
      intros [_ [[k v] [-> Hin]]]. apply elem_of_map_to_list in Hin.
      simpl in Hl. congruence.
Qed.

Lemma vkeys_not_id key : key ∈ vkeys → key ≠ "id".
Proof. unfold vkeys. intros Hin ->. no_member Hin. Qed.

Lemma vkeys_not_ptype key : key ∈ vkeys → key ≠ "ptype".
Proof. unfold vkeys. intros Hin ->. no_member Hin. Qed.

Lemma savePolicyLine_other ptype rule key :
  key ∉ columns → savePolicyLine ptype rule !! key = None.
Proof.
  unfold columns, vkeys. intros Hk.
  repeat (apply not_elem_of_cons in Hk as [? Hk]).
  rule_cases rule; unfold savePolicyLine, setDataValue, new_Rule; simpl;
    rewrite ?lookup_insert_ne by (intros E; symmetry in E; done);
    apply lookup_singleton_ne; intros E; symmetry in E; done.
Qed.

Lemma savePolicyLine_lookup_inv ptype rule key v :
  savePolicyLine ptype rule !! key = Some v →
  key = "id" ∨ (key = "ptype" ∧ v = Str ptype) ∨
  ∃ k s, vkeys !! k = Some key ∧ rule !! k = Some s ∧ v = Str s.
Proof.
  intros Hl.
  destruct (decide (key = "id")) as [->|Hid]; [by left|].
  destruct (decide (key = "ptype")) as [->|Hpt].
  { rewrite savePolicyLine_ptype in Hl. right; left. split; congruence. }
  destruct (decide (key ∈ vkeys)) as [Hin|Hnin].
  - apply list_elem_of_lookup_1 in Hin as [k Hk].
    rewrite (savePolicyLine_field _ _ k) in Hl by done.
    apply fmap_Some in Hl as [s [Hs ->]]. right; right. eauto.
  - rewrite savePolicyLine_other in Hl; [done|].
    unfold columns. intros Hc.
    apply elem_of_cons in Hc as [?|Hc]; [done|].
    apply elem_of_cons in Hc as [?|Hc]; done.
Qed.

Lemma zip_vkeys_lookup (rule : list string) key s :
  (key, s) ∈ zip vkeys rule ↔ ∃ k, vkeys !! k = Some key ∧ rule !! k = Some s.
Proof.
  rewrite list_elem_of_lookup. split.
  - intros [k Hk]. exists k.
    apply lookup_zip_with_Some in Hk as (x & y & [= <- <-] & ? & ?). done.
  - intros [k [Hk Hs]]. exists k.
    apply lookup_zip_with_Some. eauto.
Qed.

Lemma sql_match_spec ptype rule row :
  sql_match (removePolicy_where (savePolicyLine ptype rule)) row = true ↔
  spec_match ptype rule row.
Proof.
  rewrite removePolicy_where_delete. unfold sql_match, spec_match.
  rewrite bool_decide_eq_true, map_Forall_lookup. split.
  - intros Hall. split.
    + apply Hall. rewrite lookup_delete_ne by done. apply savePolicyLine_ptype.
    + apply Forall_forall. intros [key s] Hin.
      apply zip_vkeys_lookup in Hin as [k [Hk Hs]].
      apply Hall. rewrite lookup_delete_ne.
      * rewrite (savePolicyLine_field _ _ k) by done. by rewrite Hs.
      * intros E. apply (vkeys_not_id key); [by eapply list_elem_of_lookup_2|done].
  - intros [Hpt Hall] key v Hl.
    apply lookup_delete_Some in Hl as [Hne Hl].
    apply savePolicyLine_lookup_inv in Hl as [->|[[-> ->]|(k & s & Hk & Hs & ->)]];
      [done|done|].
    rewrite Forall_forall in Hall. apply (Hall (key, s)).
    apply zip_vkeys_lookup. eauto.
Qed.

Lemma where_valid_rule ptype rule :
  where_valid (removePolicy_where (savePolicyLine ptype rule)) = true.
Proof.
  rewrite removePolicy_where_delete. unfold where_valid.
  apply bool_decide_eq_true, map_Forall_lookup. intros key v Hl.
  apply lookup_delete_Some in Hl as [Hne Hl].
  apply savePolicyLine_lookup_inv in Hl as [->|[[-> ->]|(k & s & Hk & Hs & ->)]];
    done.
Qed.

Lemma removePolicy_run sec ptype rule t :
  removePolicy sec ptype rule t =
  (Ok (), {| rows := filter (λ row, ¬ spec_match ptype rule row) (rows t);
             nextId := nextId t |}).
Proof.
  unfold removePolicy, destroy. rewrite where_valid_rule.
  do 2 f_equal. apply list_filter_iff. intros row.
  rewrite <- sql_match_spec. by destruct (sql_match _ row).
Qed.

(** ** Line reconstruction *)

Lemma lineFields_stored id ptype rule :
  lineFields (stored id (savePolicyLine ptype rule)) =
  List.filter truthy (cell rule <$> [0; 1; 2; 3; 4; 5]).
Proof.
  unfold lineFields.
  rewrite (stored_save_field _ _ _ 0 "v0"), (stored_save_field _ _ _ 1 "v1"),
    (stored_save_field _ _ _ 2 "v2"), (stored_save_field _ _ _ 3 "v3"),
    (stored_save_field _ _ _ 4 "v4"), (stored_save_field _ _ _ 5 "v5") by done.
  reflexivity.
Qed.

Lemma truthy_Str s : s ≠ "" → truthy (Str s) = true.
Proof. intros Hs. simpl. by destruct (String.eqb_spec s ""). Qed.

(** A tuple of at most six non-empty strings is what the filter keeps. *)
Lemma filter_cells (rule : list string) :
  length rule ≤ 6 → Forall (λ s, s ≠ "") rule →
  List.filter truthy (cell rule <$> [0; 1; 2; 3; 4; 5]) = Str <$> rule.
Proof.
  intros Hlen Hne.
  rule_cases rule; simpl in Hlen; try lia;
    repeat match goal with
           | H : Forall _ (_ :: _) |- _ => apply Forall_cons in H as [? H]
           end;
    cbn [fmap list_fmap cell lookup list_lookup List.filter];
    rewrite ?truthy_Str by done; reflexivity.
Qed.

Lemma loadedPair_stored id ptype (rule : list string) :
  length rule ≤ 6 → Forall (λ s, s ≠ "") rule →
  loadedPair (stored id (savePolicyLine ptype rule)) = rulePair (ptype, rule).
Proof.
  intros Hlen Hne. unfold loadedPair, rulePair. simpl.
  by rewrite stored_save_ptype, lineFields_stored, filter_cells.
Qed.

Lemma policyLine_stored id ptype (rule : list string) :
  length rule ≤ 6 → Forall (λ s, s ≠ "") rule →
  policyLine (stored id (savePolicyLine ptype rule)) = ruleLine (ptype, rule).
Proof.
  intros Hlen Hne. unfold policyLine, ruleLine. simpl.
  by rewrite stored_save_ptype, lineFields_stored, filter_cells.
Qed.

Lemma loadedPair_insertedRows id prs :
  Forall storable prs →
  loadedPair <$> insertedRows id prs = rulePair <$> prs.
Proof.
  intros Hall. revert id.
  induction Hall as [|[pt rule] prs [Hlen Hne] _ IH]; intros id; [done|].
  simpl. by rewrite IH, loadedPair_stored.
Qed.

Lemma policyLine_insertedRows id prs :
  Forall storable prs →
  policyLine <$> insertedRows id prs = ruleLine <$> prs.
Proof.
  intros Hall. revert id.
  induction Hall as [|[pt rule] prs [Hlen Hne] _ IH]; intros id; [done|].
  simpl. by rewrite IH, policyLine_stored.
Qed.

(** ** Deleting rows *)

Lemma filter_all {A} (P : A → Prop) `{∀ x, Decision (P x)} (l : list A) :
  Forall P l → filter P l = l.
Proof.
  induction 1 as [|x l Hx _ IH]; [done|].
  by rewrite filter_cons_True, IH.
Qed.

Lemma filter_none {A} (P : A → Prop) `{∀ x, Decision (P x)} (l : list A) :
  Forall (λ x, ¬ P x) l → filter P l = [].
Proof.
  induction 1 as [|x l Hx _ IH]; [done|].
  by rewrite filter_cons_False, IH.
Qed.

Lemma filter_split_length {A} (P : A → Prop) `{∀ x, Decision (P x)} (l : list A) :
  length (filter (λ x, ¬ P x) l) + length (filter P l) = length l.
Proof.
  rewrite <- (Permutation_length (filter_app_complement P l)), length_app. lia.
Qed.

Lemma stored_matches id ptype rule :
  spec_match ptype rule (stored id (savePolicyLine ptype rule)).
Proof.
  split.
  - rewrite stored_column by left. unfold getDataValue.
    by rewrite savePolicyLine_ptype.
  - apply Forall_forall. intros [key s] Hin.
    apply zip_vkeys_lookup in Hin as [k [Hk Hs]].
    rewrite stored_column by (right; by eapply list_elem_of_lookup_2).
    unfold getDataValue. rewrite (savePolicyLine_field _ _ k) by done.
    by rewrite Hs.
Qed.

Lemma addPolicy_run sec ptype rule t :
  addPolicy sec ptype rule t =
  (Ok (), {| rows := rows t ++ [stored (nextId t) (savePolicyLine ptype rule)];
             nextId := S (nextId t) |}).
Proof. reflexivity. Qed.

(** ** removePolicy *)

(** C3: [removePolicy] deletes exactly the rows whose [ptype] and whose
    field at every position populated by [rule] are equal to the rule's, and
    keeps the others in place.  Its [where] object has no [id], holds
    [ptype], holds [v_k] with the rule's [k]-th element when the rule has
    one, and has no entry for a field the rule leaves absent. *)
Theorem removePolicy_deletes_matching sec ptype (rule : list string) t :
  removePolicy sec ptype rule t =
    (Ok (), {| rows := filter (λ row, ¬ spec_match ptype rule row) (rows t);
               nextId := nextId t |}) ∧
  (∀ row, sql_match (removePolicy_where (savePolicyLine ptype rule)) row = true ↔
          spec_match ptype rule row) ∧
  removePolicy_where (savePolicyLine ptype rule) !! "id" = None ∧
  removePolicy_where (savePolicyLine ptype rule) !! "ptype" = Some (Str ptype) ∧
  (∀ k key, vkeys !! k = Some key →
     removePolicy_where (savePolicyLine ptype rule) !! key = Str <$> rule !! k).
Proof.
  split; [apply removePolicy_run|].
  split; [intros row; apply sql_match_spec|].
  rewrite removePolicy_where_delete.
  split; [apply lookup_delete_eq|].
  split.
  - rewrite lookup_delete_ne by done. apply savePolicyLine_ptype.
  - intros k key Hk. rewrite lookup_delete_ne.
    + by apply savePolicyLine_field.
    + intros E. apply (vkeys_not_id key); [by eapply list_elem_of_lookup_2|done].
Qed.

Lemma removePolicy_deletes_matching_witness :
  vkeys !! 2 = Some "v2" ∧
  removePolicy_where (savePolicyLine "p" ["alice"; "data1"]) !! "v2" = None.
Proof.
  split; [reflexivity|].
  destruct (removePolicy_deletes_matching "p" "p" ["alice"; "data1"] emptyTable)
    as (_ & _ & _ & _ & Hfield).
  apply (Hfield 2 "v2"). reflexivity.
Defined.

(** C4 (as amended): after the same pair is inserted twice, one
    [removePolicy] on that pair deletes every matching row, both insertions
    included: the matching rows, two more than before the insertions, drop
    to none, and what remains are the rows that did not match. *)
Theorem removePolicy_after_duplicates sec ptype (rule : list string) t :
  let t2 := (addPolicy sec ptype rule (addPolicy sec ptype rule t).2).2 in
  let t3 := (removePolicy sec ptype rule t2).2 in
  (removePolicy sec ptype rule t2).1 = Ok () ∧
  length (matching ptype rule t2) = 2 + length (matching ptype rule t) ∧
  length (matching ptype rule t3) = 0 ∧
  rows t3 = filter (λ row, ¬ spec_match ptype rule row) (rows t) ∧
  length (rows t3) + length (matching ptype rule t2) = length (rows t2).
Proof.
  intros t2 t3. unfold t3. rewrite removePolicy_run. simpl.
  unfold t2. rewrite !addPolicy_run. simpl.
  unfold matching. simpl.
  pose proof (stored_matches (nextId t) ptype rule) as M1.
  pose proof (stored_matches (S (nextId t)) ptype rule) as M2.
  rewrite !filter_app.
  rewrite !(filter_cons_True (spec_match ptype rule)) by done.
  rewrite !(filter_cons_False (λ row, ¬ spec_match ptype rule row)) by tauto.
  rewrite !filter_nil, !app_nil_r, !length_app. simpl.
  split; [done|]. split; [lia|]. split.
  - rewrite filter_none; [done|].
    apply Forall_forall. intros row Hin.
    apply list_elem_of_filter in Hin. tauto.
  - split; [done|].
    pose proof (filter_split_length (spec_match ptype rule) (rows t)). lia.
Qed.

(** C4 as the spec words it fails: the same tuple inserted twice into the
    empty table and removed once leaves no row, not one. *)
Lemma removePolicy_after_duplicates_leaves_none :
  let rule := ["alice"; "data1"; "read"] in
  let t2 := (addPolicy "p" "p" rule (addPolicy "p" "p" rule emptyTable).2).2 in
  length (rows t2) = 2 ∧
  length (rows (removePolicy "p" "p" rule t2).2) = 0 ∧
  length (rows (removePolicy "p" "p" rule t2).2) ≠ 1.
Proof.
  vm_compute. repeat split. discriminate.
Qed.

Lemma removePolicy_after_duplicates_witness :
  let rule := ["alice"; "data1"] in
  let t := (addPolicy "p" "p" ["alice"; "data1"; "read"] emptyTable).2 in
  let t2 := (addPolicy "p" "p" rule (addPolicy "p" "p" rule t).2).2 in
  length (rows t2) = 3 ∧ rows (removePolicy "p" "p" rule t2).2 = [].
Proof.
  intros rule t t2. split; [reflexivity|].
  destruct (removePolicy_after_duplicates "p" "p" rule t) as (_ & _ & _ & Hrows & _).
  fold t2 in Hrows. rewrite Hrows. vm_compute. reflexivity.
Defined.

(** C5: [removeFilteredPolicy] raises the "not implemented" error whatever
    its arguments, and the table after the call is the table before it. *)
Theorem removeFilteredPolicy_not_implemented sec ptype fieldIndex fieldValues t :
  removeFilteredPolicy sec ptype fieldIndex fieldValues t =
  (Throw (Error "not implemented"), t).
Proof. reflexivity. Qed.

(** C6: when no row of the table matches the pair, [removePolicy] returns
    without an error and leaves the table, hence its row count, as it
    was. *)
Theorem removePolicy_no_match sec ptype (rule : list string) t :
  Forall (λ row, ¬ spec_match ptype rule row) (rows t) →
  removePolicy sec ptype rule t = (Ok (), t) ∧
  length (rows (removePolicy sec ptype rule t).2) = length (rows t).
Proof.
  intros Hno. rewrite removePolicy_run. simpl.
  rewrite filter_all by done. split; [|done].
  f_equal. by apply table_eq.
Qed.

Lemma removePolicy_no_match_witness :
  let t := (addPolicy "p" "p" ["bob"; "data2"; "write"] emptyTable).2 in
  Forall (λ row, ¬ spec_match "p" ["alice"; "data1"; "read"] row) (rows t) ∧
  removePolicy "p" "p" ["alice"; "data1"; "read"] t = (Ok (), t).
Proof.
  intros t.
  assert (Hno : Forall (λ row, ¬ spec_match "p" ["alice"; "data1"; "read"] row) (rows t)).
  { apply (bool_decide_unpack _). vm_compute. exact I. }
  split; [exact Hno|].
  apply (removePolicy_no_match "p" "p" ["alice"; "data1"; "read"] t Hno).
Defined.

(** C9: with the empty tuple the predicate of [removePolicy] constrains
    [ptype] alone, so the rows that remain are those of another [ptype]; in
    particular every row of that [ptype] whose [v0] .. [v5] are all NULL is
    deleted. *)
Theorem removePolicy_empty_rule sec ptype t :
  removePolicy sec ptype [] t =
    (Ok (), {| rows := filter (λ row, row !! "ptype" ≠ Some (Str ptype)) (rows t);
               nextId := nextId t |}) ∧
  (∀ row, row ∈ rows t →
     row !! "ptype" = Some (Str ptype) →
     Forall (λ key, row !! key = Some Null) vkeys →
     row ∉ rows (removePolicy sec ptype [] t).2).
Proof.
  rewrite removePolicy_run. simpl.
  assert (Hiff : ∀ row : gmap string value,
             ¬ spec_match ptype [] row ↔ row !! "ptype" ≠ Some (Str ptype)).
  { intros row. unfold spec_match. simpl. split.
    - intros Hn Hp. apply Hn. split; [done|constructor].
    - intros Hn [Hp _]. done. }
  rewrite (list_filter_iff _ _ _ Hiff).
  split; [done|].
  intros row _ Hp _ Hin. apply list_elem_of_filter in Hin as [Hne _]. done.
Qed.

Lemma removePolicy_empty_rule_witness :
  let t := (addPolicy "p" "p" [] (addPolicy "p" "g" [] emptyTable).2).2 in
  let row := stored 2 (savePolicyLine "p" []) in
  row ∈ rows t ∧ row !! "ptype" = Some (Str "p") ∧
  Forall (λ key, row !! key = Some Null) vkeys ∧
  row ∉ rows (removePolicy "p" "p" [] t).2.
Proof.
  intros t row.
  assert (Hin : row ∈ rows t) by (apply (bool_decide_unpack _); vm_compute; exact I).
  assert (Hp : row !! "ptype" = Some (Str "p")) by (vm_compute; reflexivity).
  assert (Hv : Forall (λ key, row !! key = Some Null) vkeys)
    by (apply (bool_decide_unpack _); vm_compute; exact I).
  repeat split; try assumption.
  destruct (removePolicy_empty_rule "p" "p" t) as [_ Hdel].
  exact (Hdel row Hin Hp Hv).
Defined.

(** ** savePolicy *)

(** Without one of the two sections the loop over it raises: at once for
    [p], and for [g] after the table was emptied and the rows of the [p]
    section were written. *)
Lemma savePolicy_missing_p m t :
  Map_get (model m) "p" = None →
  savePolicy m t = (Throw (TypeError "undefined is not iterable"), emptyTable).
Proof.
  intros Hp. unfold savePolicy. rewrite Hp. reflexivity.
Qed.

Lemma savePolicy_missing_g m t pm :
  Map_get (model m) "p" = Some pm →
  Map_get (model m) "g" = None →
  savePolicy m t =
    (Throw (TypeError "undefined is not iterable"),
     {| rows := insertedRows 1 (pairsOf pm); nextId := 1 + length (pairsOf pm) |}).
Proof.
  intros Hp Hg. unfold savePolicy. rewrite Hp, Hg. unfold iterate.
  repeat (rewrite bind_run; unfold mret, M_ret, ret; simpl;
          try rewrite saveSection_run; simpl).
  reflexivity.
Qed.

(** C7: [savePolicy] first empties the table and ensures it.  On a model
    holding a [p] and a [g] section it then inserts one row per tuple: the
    [p] section before the [g] section, each section in its map's iteration
    order and each list in its own order; the rows in the table before the
    call play no role in the result.  Whenever the call completes, it
    returns [true]. *)
Theorem savePolicy_rewrites m t :
  (dropTable ≫= λ _, createTable) t = (Ok (), emptyTable) ∧
  (∀ pm gm,
     Map_get (model m) "p" = Some pm →
     Map_get (model m) "g" = Some gm →
     savePolicy m t =
       (Ok true, {| rows := insertedRows 1 (pairsOf pm ++ pairsOf gm);
                    nextId := 1 + length (pairsOf pm ++ pairsOf gm) |}) ∧
     length (rows (savePolicy m t).2) = length (pairsOf pm) + length (pairsOf gm)) ∧
  (∀ b t', savePolicy m t = (Ok b, t') → b = true).
Proof.
  split; [reflexivity|]. split.
  - intros pm gm Hp Hg.
    rewrite (savePolicy_run m t pm gm Hp Hg). split; [reflexivity|].
    simpl. by rewrite insertedRows_length, length_app.
  - intros b t' Hrun.
    destruct (Map_get (model m) "p") as [pm|] eqn:Hp;
      [|rewrite (savePolicy_missing_p m t Hp) in Hrun; discriminate Hrun].
    destruct (Map_get (model m) "g") as [gm|] eqn:Hg;
      [|rewrite (savePolicy_missing_g m t pm Hp Hg) in Hrun; discriminate Hrun].
    rewrite (savePolicy_run m t pm gm Hp Hg) in Hrun. congruence.
Qed.

Lemma savePolicy_rewrites_witness :
  let t := (addPolicy "p" "p" ["carol"; "data3"; "read"] emptyTable).2 in
  Map_get (model exampleModel) "p" =
    Some [("p", {| policy := [["alice"; "data1"; "read"]; ["bob"; "data2"; "write"]] |})] ∧
  Map_get (model exampleModel) "g" = Some [("g", {| policy := [["alice"; "admin"]] |})] ∧
  savePolicy exampleModel t =
    (Ok true,
     {| rows := [stored 1 (savePolicyLine "p" ["alice"; "data1"; "read"]);
                 stored 2 (savePolicyLine "p" ["bob"; "data2"; "write"]);
                 stored 3 (savePolicyLine "g" ["alice"; "admin"])];
        nextId := 4 |}).
Proof.
  intros t. split; [reflexivity|]. split; [reflexivity|].
  destruct (savePolicy_rewrites exampleModel t) as (_ & Hrows & _).
  exact (proj1 (Hrows _ _ eq_refl eq_refl)).
Defined.

(** ** savePolicyLine *)

(** C8: in the row [savePolicyLine] builds, [ptype] is assigned, and field
    [v_k] is set, to the [k]-th element of the tuple, exactly when [k] is
    below the smaller of the tuple's length and six; so a set field has
    every field before it set.  The same holds of the stored row, where an
    unset field is NULL. *)
Theorem savePolicyLine_no_gaps ptype (rule : list string) :
  savePolicyLine ptype rule !! "ptype" = Some (Str ptype) ∧
  (∀ k key, vkeys !! k = Some key →
     savePolicyLine ptype rule !! key = Str <$> rule !! k ∧
     (is_Some (savePolicyLine ptype rule !! key) ↔ k < min (length rule) 6)) ∧
  (∀ j k keyj keyk, vkeys !! j = Some keyj → vkeys !! k = Some keyk → j < k →
     is_Some (savePolicyLine ptype rule !! keyk) →
     is_Some (savePolicyLine ptype rule !! keyj)) ∧
  (∀ id, stored id (savePolicyLine ptype rule) !! "ptype" = Some (Str ptype)) ∧
  (∀ id k key, vkeys !! k = Some key →
     stored id (savePolicyLine ptype rule) !! key ≠ Some Null ↔
     k < min (length rule) 6).
Proof.
  assert (Hset : ∀ k key, vkeys !! k = Some key →
            is_Some (savePolicyLine ptype rule !! key) ↔ k < min (length rule) 6).
  { intros k key Hk. rewrite (savePolicyLine_field _ _ k) by done.
    rewrite fmap_is_Some, lookup_lt_is_Some.
    apply lookup_lt_Some in Hk. simpl in Hk. lia. }
  split; [apply savePolicyLine_ptype|].
  split; [intros k key Hk; split; [by apply savePolicyLine_field|by apply Hset]|].
  split.
  { intros j k keyj keyk Hj Hk Hlt Hs.
    apply (Hset _ _ Hk) in Hs. apply (Hset _ _ Hj). lia. }
  split.
  { intros id. rewrite stored_column by left. unfold getDataValue.
    by rewrite savePolicyLine_ptype. }
  intros id k key Hk.
  rewrite stored_column by (right; by eapply list_elem_of_lookup_2).
  unfold getDataValue. rewrite (savePolicyLine_field _ _ k) by done.
  pose proof (lookup_lt_Some _ _ _ Hk) as Hk6. simpl in Hk6.
  destruct (rule !! k) as [s|] eqn:Hs; simpl.
  - apply lookup_lt_Some in Hs. split; [lia|done].
  - apply lookup_ge_None in Hs. split; [done|lia].
Qed.

Lemma savePolicyLine_no_gaps_witness :
  vkeys !! 1 = Some "v1" ∧
  savePolicyLine "p" ["alice"; "data1"] !! "v1" = Some (Str "data1") ∧
  (is_Some (savePolicyLine "p" ["alice"; "data1"] !! "v1") ↔ 1 < min 2 6).
Proof.
  split; [reflexivity|].
  destruct (savePolicyLine_no_gaps "p" ["alice"; "data1"]) as (_ & Hfield & _).
  apply (Hfield 1 "v1"). reflexivity.
Defined.

(** ** loadPolicyLine *)

Lemma lineFields_vkeys line :
  lineFields line = List.filter truthy (getDataValue line <$> vkeys).
Proof. reflexivity. Qed.

(** Two readings of the fields give the same kept fields when they differ
    only where both are falsy. *)
Lemma filter_truthy_ext (f g : string → value) (ks : list string) :
  (∀ key, key ∈ ks →
     f key = g key ∨ (truthy (f key) = false ∧ truthy (g key) = false)) →
  List.filter truthy (f <$> ks) = List.filter truthy (g <$> ks).
Proof.
  induction ks as [|k ks IH]; intros Hks; [done|].
  rewrite !fmap_cons. cbn [List.filter].
  rewrite IH by (intros key Hin; apply Hks; by right).
  destruct (Hks k) as [->|[-> ->]]; [by left|done|done].
Qed.

Lemma lineFields_falsy key v (line : gmap string value) :
  truthy v = false →
  lineFields (<[key := v]> line) = lineFields (delete key line).
Proof.
  intros Hv. rewrite !lineFields_vkeys. apply filter_truthy_ext.
  intros k _. unfold getDataValue. destruct (decide (k = key)) as [->|Hne].
  - right. by rewrite lookup_insert_eq, lookup_delete_eq.
  - left. by rewrite lookup_insert_ne, lookup_delete_ne.
Qed.

Lemma policyLine_falsy key v (line : gmap string value) :
  key ∈ vkeys → truthy v = false →
  policyLine (<[key := v]> line) = policyLine (delete key line).
Proof.
  intros Hk Hv. unfold policyLine.
  rewrite (lineFields_falsy key v) by done.
  unfold getDataValue. rewrite lookup_insert_ne, lookup_delete_ne; [done| |];
    intros E; by apply (vkeys_not_ptype key).
Qed.

(** C10: [loadPolicyLine] keeps the truthy fields only.  A field holding the
    empty string gives the same line as that field holding NULL, or having
    no value at all; and a row whose fields are all unset or empty gives the
    [ptype] followed by the separator and nothing else. *)
Theorem loadPolicyLine_drops_empty (line : gmap string value) :
  (∀ key, key ∈ vkeys →
     lineFields (<[key := Str ""]> line) = lineFields (<[key := Null]> line) ∧
     policyLine (<[key := Str ""]> line) = policyLine (<[key := Null]> line) ∧
     policyLine (<[key := Str ""]> line) = policyLine (delete key line)) ∧
  ((∀ key, key ∈ vkeys →
      line !! key = None ∨ line !! key = Some Null ∨ line !! key = Some (Str "")) →
   lineFields line = [] ∧
   policyLine line = toString (getDataValue line "ptype") +:+ ", ").
Proof.
  split.
  - intros key Hk.
    rewrite !(lineFields_falsy key), !(policyLine_falsy key) by done. done.
  - intros Hall.
    assert (Hf : ∀ key, key ∈ vkeys → truthy (getDataValue line key) = false).
    { intros key Hk. unfold getDataValue.
      destruct (Hall key Hk) as [->|[->| ->]]; reflexivity. }
    assert (Hnil : lineFields line = []).
    { rewrite lineFields_vkeys.
      rewrite (filter_truthy_ext _ (λ _, Undefined)); [done|].
      intros key Hk. right. split; [by apply Hf|done]. }
    split; [done|]. unfold policyLine. by rewrite Hnil.
Qed.

Lemma loadPolicyLine_drops_empty_witness :
  "v1" ∈ vkeys ∧
  policyLine (<["v1" := Str ""]> (stored 1 (savePolicyLine "p" ["alice"; "x"; "read"]))) =
  policyLine (<["v1" := Null]> (stored 1 (savePolicyLine "p" ["alice"; "x"; "read"]))) ∧
  (∀ key, key ∈ vkeys →
     stored 1 (savePolicyLine "p" []) !! key = None ∨
     stored 1 (savePolicyLine "p" []) !! key = Some Null ∨
     stored 1 (savePolicyLine "p" []) !! key = Some (Str "")) ∧
  policyLine (stored 1 (savePolicyLine "p" [])) = "p, ".
Proof.
  assert (Hk : "v1" ∈ vkeys) by (apply (bool_decide_unpack _); vm_compute; exact I).
  assert (Hnull : ∀ key, key ∈ vkeys →
     stored 1 (savePolicyLine "p" []) !! key = None ∨
     stored 1 (savePolicyLine "p" []) !! key = Some Null ∨
     stored 1 (savePolicyLine "p" []) !! key = Some (Str "")).
  { unfold vkeys. intros key Hin.
    repeat (apply elem_of_cons in Hin as [->|Hin];
            [right; left; vm_compute; reflexivity|]).
    by apply elem_of_nil in Hin. }
  split; [exact Hk|]. split.
  - destruct (loadPolicyLine_drops_empty
                (stored 1 (savePolicyLine "p" ["alice"; "x"; "read"]))) as [Hsame _].
    exact (proj1 (proj2 (Hsame "v1" Hk))).
  - split; [exact Hnull|].
    destruct (loadPolicyLine_drops_empty (stored 1 (savePolicyLine "p" []))) as [_ Hline].
    exact (proj2 (Hline Hnull)).
Defined.

(** ** Round trips *)

(** C1 (as amended): for a model that holds a [p] and a [g] section and
    whose tuples have at most six elements, none of them empty,
    [savePolicy] succeeds and the rows it leaves give back, pair by pair and
    so as a set and in whatever order the rows are read, exactly the (ptype,
    tuple) pairs of the model; [loadPolicy] hands the loader one line
    [ptype, v0, ..., vk] per pair. *)
Theorem savePolicy_loadPolicy_roundtrip H (m m' : Model) (t : Table) pm gm :
  Map_get (model m) "p" = Some pm →
  Map_get (model m) "g" = Some gm →
  Forall storable (modelPairs m) →
  ∃ t', savePolicy m t = (Ok true, t') ∧
        loadedPairs t' = rulePair <$> modelPairs m ∧
        (∀ rows', rows' ≡ₚ rows t' →
           ∀ pr, pr ∈ loadedPair <$> rows' ↔ pr ∈ rulePair <$> modelPairs m) ∧
        loadPolicy H m' t' =
          (Ok (foldl (λ acc l, H l acc) m' (ruleLine <$> modelPairs m)), t').
Proof.
  intros Hp Hg Hst. eexists. split; [by apply savePolicy_run|].
  unfold modelPairs in *. rewrite Hp, Hg in *. simpl in Hst |- *.
  assert (Hl : loadedPair <$> insertedRows 1 (pairsOf pm ++ pairsOf gm) =
               rulePair <$> (pairsOf pm ++ pairsOf gm))
    by by apply loadedPair_insertedRows.
  split; [exact Hl|]. split.
  - intros rows' Hperm pr. rewrite <- Hl.
    by rewrite (fmap_Permutation loadedPair _ _ Hperm).
  - rewrite loadPolicy_run. simpl. by rewrite policyLine_insertedRows.
Qed.

Lemma savePolicy_loadPolicy_roundtrip_witness :
  Map_get (model exampleModel) "p" = Some [("p", {| policy := [["alice"; "data1"; "read"]; ["bob"; "data2"; "write"]] |})] ∧
  Map_get (model exampleModel) "g" = Some [("g", {| policy := [["alice"; "admin"]] |})] ∧
  Forall storable (modelPairs exampleModel) ∧
  ∃ t', savePolicy exampleModel emptyTable = (Ok true, t') ∧
        loadPolicy recordingLoader {| model := [] |} t' =
          (Ok {| model := [("p, alice, data1, read", []);
                           ("p, bob, data2, write", []);
                           ("g, alice, admin", [])] |}, t').
Proof.
  assert (Hst : Forall storable (modelPairs exampleModel)).
  { repeat (constructor; [split; [simpl; lia|repeat constructor; discriminate]|]).
    constructor. }
  split; [reflexivity|]. split; [reflexivity|]. split; [exact Hst|].
  destruct (savePolicy_loadPolicy_roundtrip recordingLoader exampleModel
              {| model := [] |} emptyTable _ _ eq_refl eq_refl Hst)
    as (t' & Hsave & _ & _ & Hload).
  exists t'. split; [exact Hsave|]. exact Hload.
Defined.

(** C1 as the spec words it fails on a tuple with an empty element, which
    comes back without it; on a tuple of seven elements, which comes back
    with six; and on a model without a [g] section, where [savePolicy]
    raises. *)
Lemma savePolicy_loadPolicy_roundtrip_fails :
  ¬ roundtrip_as_set
      {| model := [("p", [("p", {| policy := [["alice"; ""; "read"]] |})]);
                   ("g", [])] |} emptyTable ∧
  ¬ roundtrip_as_set
      {| model := [("p", [("p", {| policy := [["a"; "b"; "c"; "d"; "e"; "f"; "g"]] |})]);
                   ("g", [])] |} emptyTable ∧
  ¬ roundtrip_as_set
      {| model := [("p", [("p", {| policy := [["alice"; "data1"; "read"]] |})])] |}
      emptyTable.
Proof.
  repeat split; intros (t' & Hsave & Hset); vm_compute in Hsave.
  - injection Hsave as <-.
    specialize (Hset (Str "p", [Str "alice"; Str ""; Str "read"])).
    assert (Hin : (Str "p", [Str "alice"; Str ""; Str "read"]) ∈
                  [(Str "p", [Str "alice"; Str "read"])]).
    { apply Hset. vm_compute. left. }
    apply list_elem_of_singleton in Hin. discriminate Hin.
  - injection Hsave as <-.
    specialize (Hset (Str "p", Str <$> ["a"; "b"; "c"; "d"; "e"; "f"; "g"])).
    assert (Hin : (Str "p", Str <$> ["a"; "b"; "c"; "d"; "e"; "f"; "g"]) ∈
                  [(Str "p", Str <$> ["a"; "b"; "c"; "d"; "e"; "f"])]).
    { apply Hset. vm_compute. left. }
    apply list_elem_of_singleton in Hin. discriminate Hin.
  - discriminate Hsave.
Qed.

(** C2 (as amended): for a tuple of at most six elements, none of them
    empty, [addPolicy] appends one row from which [loadPolicy] rebuilds the
    same [ptype] and the same tuple, and hands the loader the line
    [ptype, v0, ..., vk] after the lines of the rows already there; so
    [addPolicy("p", "p", ["alice", "data1", "read"])] on the empty table and
    then [loadPolicy] feeds exactly ["p, alice, data1, read"]. *)
Theorem addPolicy_loadPolicy_roundtrip :
  (∀ H sec ptype (rule : list string) t m',
     length rule ≤ 6 → Forall (λ s, s ≠ "") rule →
     ∃ row t',
       addPolicy sec ptype rule t = (Ok (), t') ∧
       rows t' = rows t ++ [row] ∧
       loadedPair row = rulePair (ptype, rule) ∧
       policyLine row = ruleLine (ptype, rule) ∧
       loadPolicy H m' t' =
         (Ok (H (ruleLine (ptype, rule))
                (foldl (λ acc l, H l acc) m' (policyLine <$> rows t))), t')) ∧
  (∀ H m', ∃ t',
     addPolicy "p" "p" ["alice"; "data1"; "read"] emptyTable = (Ok (), t') ∧
     loadPolicy H m' t' = (Ok (H "p, alice, data1, read" m'), t')).
Proof.
  assert (Hgen : ∀ H sec ptype (rule : list string) t m',
     length rule ≤ 6 → Forall (λ s, s ≠ "") rule →
     ∃ row t',
       addPolicy sec ptype rule t = (Ok (), t') ∧
       rows t' = rows t ++ [row] ∧
       loadedPair row = rulePair (ptype, rule) ∧
       policyLine row = ruleLine (ptype, rule) ∧
       loadPolicy H m' t' =
         (Ok (H (ruleLine (ptype, rule))
                (foldl (λ acc l, H l acc) m' (policyLine <$> rows t))), t')).
  { intros H sec ptype rule t m' Hlen Hne.
    eexists. eexists. split; [apply addPolicy_run|]. simpl.
    split; [done|].
    split; [by apply loadedPair_stored|].
    split; [by apply policyLine_stored|].
    rewrite loadPolicy_run. simpl.
    rewrite fmap_app, foldl_app. simpl. by rewrite policyLine_stored. }
  split; [exact Hgen|].
  intros H m'.
  destruct (Hgen H "p" "p" ["alice"; "data1"; "read"] emptyTable m')
    as (row & t' & Hadd & _ & _ & _ & Hload).
  - simpl. lia.
  - repeat constructor; discriminate.
  - exists t'. split; [exact Hadd|]. exact Hload.
Qed.

Lemma addPolicy_loadPolicy_roundtrip_witness :
  length ["alice"; "admin"] ≤ 6 ∧
  Forall (λ s, s ≠ "") ["alice"; "admin"] ∧
  ∃ row t',
    addPolicy "g" "g" ["alice"; "admin"] emptyTable = (Ok (), t') ∧
    rows t' = [row] ∧
    loadedPair row = (Str "g", [Str "alice"; Str "admin"]) ∧
    policyLine row = "g, alice, admin".
Proof.
  assert (Hlen : length ["alice"; "admin"] ≤ 6) by (simpl; lia).
  assert (Hne : Forall (λ s, s ≠ "") ["alice"; "admin"])
    by (repeat constructor; discriminate).
  split; [exact Hlen|]. split; [exact Hne|].
  destruct (proj1 addPolicy_loadPolicy_roundtrip recordingLoader "g" "g"
              ["alice"; "admin"] emptyTable {| model := [] |} Hlen Hne)
    as (row & t' & Hadd & Hrows & Hpair & Hline & _).
  exists row, t'. repeat split; assumption.
Defined.

(** C2 as the spec words it fails on a tuple with an empty element: the
    tuple rebuilt from the row lacks it. *)
Lemma addPolicy_loadPolicy_roundtrip_fails :
  length ["alice"; ""] ≤ 6 ∧ ¬ roundtrip_one "p" ["alice"; ""] emptyTable.
Proof.
  split; [simpl; lia|].
  intros (row & Hrows & Hpair). vm_compute in Hrows.
  injection Hrows as <-. vm_compute in Hpair. discriminate Hpair.
Qed.

(** ** Further properties of the save and load paths *)

(** X1: the row [savePolicyLine] builds is determined by [ptype] and the
    first six elements of the tuple, and determines them: two calls build
    the same row exactly when they agree on both.  Elements after the sixth
    are dropped. *)
Theorem savePolicyLine_first_six ptype1 ptype2 (rule1 rule2 : list string) :
  savePolicyLine ptype1 rule1 = savePolicyLine ptype2 rule2 ↔
  ptype1 = ptype2 ∧ take 6 rule1 = take 6 rule2.
Proof.
  split.
  - intros Heq. split.
    + pose proof (savePolicyLine_ptype ptype1 rule1) as H1.
      rewrite Heq, savePolicyLine_ptype in H1. congruence.
    + apply list_eq. intros k. destruct (decide (k < 6)) as [Hk|Hk].
      * rewrite !lookup_take_lt by done.
        destruct (lookup_lt_is_Some_2 vkeys k Hk) as [key Hkey].
        pose proof (savePolicyLine_field ptype1 rule1 k key Hkey) as H1.
        rewrite Heq, (savePolicyLine_field _ _ k key Hkey) in H1.
        destruct (rule1 !! k), (rule2 !! k); simpl in H1; congruence.
      * rewrite !lookup_take_ge by lia. done.
  - intros [-> Htake].
    assert (Hsix : ∀ rule : list string,
              savePolicyLine ptype2 rule = savePolicyLine ptype2 (take 6 rule)).
    { intros rule. rule_cases rule; vm_compute; reflexivity. }
    by rewrite (Hsix rule1), (Hsix rule2), Htake.
Qed.

Lemma savePolicyLine_first_six_witness :
  "p" = "p" ∧
  take 6 ["a"; "b"; "c"; "d"; "e"; "f"; "g"] = take 6 ["a"; "b"; "c"; "d"; "e"; "f"; "h"; "i"] ∧
  savePolicyLine "p" ["a"; "b"; "c"; "d"; "e"; "f"; "g"] =
  savePolicyLine "p" ["a"; "b"; "c"; "d"; "e"; "f"; "h"; "i"].
Proof.
  split; [reflexivity|]. split; [reflexivity|].
  apply (proj2 (savePolicyLine_first_six "p" "p" _ _)).
  split; reflexivity.
Defined.

Lemma cell_nil k : cell [] k = Null.
Proof. unfold cell. by rewrite lookup_nil. Qed.

Lemma filter_cells_take n (rule : list string) :
  List.filter truthy (cell rule <$> seq 0 n) =
  Str <$> filter (λ s, s ≠ "") (take n rule).
Proof.
  revert rule. induction n as [|n IH]; intros rule.
  - by rewrite take_0.
  - cbn [seq]. rewrite <- fmap_S_seq, fmap_cons, <- list_fmap_compose.
    destruct rule as [|a rule].
    + rewrite (list_fmap_ext (cell [] ∘ S) (cell []) (seq 0 n))
        by (intros i k _; simpl; by rewrite !cell_nil).
      cbn [List.filter]. rewrite cell_nil. simpl truthy. cbv iota.
      rewrite IH. by rewrite take_nil.
    + rewrite (list_fmap_ext (cell (a :: rule) ∘ S) (cell rule) (seq 0 n)) by done.
      cbn [List.filter]. rewrite IH. cbn [take]. rewrite filter_cons.
      change (cell (a :: rule) 0) with (Str a).
      destruct (decide (a ≠ "")) as [Hne|He].
      * by rewrite truthy_Str.
      * apply dec_stable in He. by subst a.
Qed.

Lemma loadedPair_stored_any id ptype (rule : list string) :
  loadedPair (stored id (savePolicyLine ptype rule)) = rulePair (ptype, kept rule).
Proof.
  unfold loadedPair, rulePair, kept. simpl.
  rewrite stored_save_ptype, lineFields_stored.
  by rewrite <- (filter_cells_take 6 rule).
Qed.

Lemma policyLine_stored_any id ptype (rule : list string) :
  policyLine (stored id (savePolicyLine ptype rule)) = ruleLine (ptype, kept rule).
Proof.
  unfold policyLine, ruleLine, kept. simpl.
  rewrite stored_save_ptype, lineFields_stored.
  by rewrite <- (filter_cells_take 6 rule).
Qed.

(** X2: whatever the tuple, the row [addPolicy] stores is read back by
    [loadPolicy] as the [ptype] and the first six elements of the tuple
    without its empty strings, the later elements moving to the front; the
    loader gets the line of that shortened tuple, after the lines of the
    rows already there. *)
Theorem addPolicy_loadPolicy_any H sec ptype (rule : list string) t m' :
  ∃ row t',
    addPolicy sec ptype rule t = (Ok (), t') ∧
    rows t' = rows t ++ [row] ∧
    loadedPair row = rulePair (ptype, kept rule) ∧
    policyLine row = ruleLine (ptype, kept rule) ∧
    loadPolicy H m' t' =
      (Ok (H (ruleLine (ptype, kept rule))
             (foldl (λ acc l, H l acc) m' (policyLine <$> rows t))), t').
Proof.
  eexists. eexists. split; [apply addPolicy_run|]. simpl.
  split; [done|].
  split; [apply loadedPair_stored_any|].
  split; [apply policyLine_stored_any|].
  rewrite loadPolicy_run. simpl.
  rewrite fmap_app, foldl_app. simpl. by rewrite policyLine_stored_any.
Qed.

Lemma loadedPair_insertedRows_any id prs :
  loadedPair <$> insertedRows id prs = rulePair <$> (keptPair <$> prs).
Proof.
  revert id. induction prs as [|[pt rule] prs IH]; intros id; [done|].
  simpl. by rewrite IH, loadedPair_stored_any.
Qed.

Lemma policyLine_insertedRows_any id prs :
  policyLine <$> insertedRows id prs = ruleLine <$> (keptPair <$> prs).
Proof.
  revert id. induction prs as [|[pt rule] prs IH]; intros id; [done|].
  simpl. by rewrite IH, policyLine_stored_any.
Qed.

(** X3: for any model holding a [p] and a [g] section, the rows
    [savePolicy] leaves are read back, pair by pair and in order, as the
    model's pairs with each tuple cut to its first six elements and its
    empty strings removed; [loadPolicy] hands the loader one line per pair
    of the model, built from the shortened tuple. *)
Theorem savePolicy_loadPolicy_any H (m m' : Model) (t : Table) pm gm :
  Map_get (model m) "p" = Some pm →
  Map_get (model m) "g" = Some gm →
  ∃ t', savePolicy m t = (Ok true, t') ∧
        loadedPairs t' = rulePair <$> (keptPair <$> modelPairs m) ∧
        loadPolicy H m' t' =
          (Ok (foldl (λ acc l, H l acc) m' (ruleLine <$> (keptPair <$> modelPairs m))),
           t').
Proof.
  intros Hp Hg. eexists. split; [by apply savePolicy_run|].
  unfold modelPairs, loadedPairs. rewrite Hp, Hg. simpl.
  split; [apply loadedPair_insertedRows_any|].
  rewrite loadPolicy_run. simpl. by rewrite policyLine_insertedRows_any.
Qed.

Lemma savePolicy_loadPolicy_any_witness :
  let m := {| model := [("p", [("p", {| policy := [["alice"; ""; "read"];
                                                   ["a"; "b"; "c"; "d"; "e"; "f"; "g"]] |})]);
                        ("g", [("g", {| policy := [[]] |})])] |} in
  Map_get (model m) "p" =
    Some [("p", {| policy := [["alice"; ""; "read"]; ["a"; "b"; "c"; "d"; "e"; "f"; "g"]] |})] ∧
  Map_get (model m) "g" = Some [("g", {| policy := [[]] |})] ∧
  ∃ t', savePolicy m emptyTable = (Ok true, t') ∧
        loadPolicy recordingLoader {| model := [] |} t' =
          (Ok {| model := [("p, alice, read", []);
                           ("p, a, b, c, d, e, f", []);
                           ("g, ", [])] |}, t').
Proof.
  intros m. split; [reflexivity|]. split; [reflexivity|].
  destruct (savePolicy_loadPolicy_any recordingLoader m {| model := [] |}
              emptyTable _ _ eq_refl eq_refl) as (t' & Hsave & _ & Hload).
  exists t'. split; [exact Hsave|]. exact Hload.
Defined.

(** ** Further properties of removePolicy *)

Lemma stored_ptype_lookup id ptype rule :
  stored id (savePolicyLine ptype rule) !! "ptype" = Some (Str ptype).
Proof.
  rewrite stored_column by left. unfold getDataValue.
  by rewrite savePolicyLine_ptype.
Qed.

Lemma stored_field_lookup id ptype rule k key :
  vkeys !! k = Some key →
  stored id (savePolicyLine ptype rule) !! key = Some (cell rule k).
Proof.
  intros Hk. rewrite stored_column by (right; by eapply list_elem_of_lookup_2).
  unfold getDataValue, cell. rewrite (savePolicyLine_field _ _ k) by done.
  by destruct (rule !! k).
Qed.

Lemma spec_match_stored ptype (rule : list string) id ptype' (rule' : list string) :
  spec_match ptype rule (stored id (savePolicyLine ptype' rule')) ↔
  ptype' = ptype ∧ ∀ k s, k < 6 → rule !! k = Some s → rule' !! k = Some s.
Proof.
  unfold spec_match. rewrite stored_ptype_lookup, Forall_forall. split.
  - intros [Hp Hall]. split; [congruence|]. intros k s Hk Hs.
    destruct (lookup_lt_is_Some_2 vkeys k Hk) as [key Hkey].
    specialize (Hall (key, s)). simpl in Hall.
    rewrite (stored_field_lookup _ _ _ k) in Hall by done.
    unfold cell in Hall. destruct (rule' !! k).
    + assert (Some (Str s0) = Some (Str s)) as [= ->]; [|done].
      apply Hall, zip_vkeys_lookup. eauto.
    + assert (Some Null = Some (Str s)) as [=].
      apply Hall, zip_vkeys_lookup. eauto.
  - intros [-> Hall]. split; [done|]. intros [key s] Hin.
    apply zip_vkeys_lookup in Hin as [k [Hkey Hs]].
    rewrite (stored_field_lookup _ _ _ k) by done.
    unfold cell. rewrite (Hall k s); [done| |done].
    apply lookup_lt_Some in Hkey. simpl in Hkey. lia.
Qed.

(** X4: [removePolicy(ptype, rule)] deletes a row saved for
    [(ptype', rule')] exactly when the ptypes are equal and [rule'] has the
    elements of [rule] at the first six positions of [rule]; so it also
    deletes the rows of every longer tuple that starts with [rule]: adding
    [rule ++ ext] and then removing [rule] leaves the rows that did not
    match before. *)
Theorem removePolicy_deletes_extensions sec ptype (rule : list string) :
  (∀ id ptype' (rule' : list string),
     spec_match ptype rule (stored id (savePolicyLine ptype' rule')) ↔
     ptype' = ptype ∧ ∀ k s, k < 6 → rule !! k = Some s → rule' !! k = Some s) ∧
  (∀ sec' ext t,
     rows (removePolicy sec ptype rule (addPolicy sec' ptype (rule ++ ext) t).2).2 =
     filter (λ row, ¬ spec_match ptype rule row) (rows t)).
Proof.
  split; [intros; apply spec_match_stored|].
  intros sec' ext t. rewrite removePolicy_run, addPolicy_run. simpl.
  rewrite filter_app, filter_cons_False, filter_nil, app_nil_r; [done|].
  intros Hno. apply Hno, spec_match_stored. split; [done|].
  intros k s _ Hs. by apply lookup_app_l_Some.
Qed.

Lemma removePolicy_deletes_extensions_witness :
  rows (removePolicy "p" "p" ["alice"]
          (addPolicy "p" "p" ["alice"; "data1"; "read"]
             (addPolicy "p" "p" ["bob"; "data2"; "write"] emptyTable).2).2).2 =
  [stored 1 (savePolicyLine "p" ["bob"; "data2"; "write"])].
Proof.
  destruct (removePolicy_deletes_extensions "p" "p" ["alice"]) as [_ Hext].
  rewrite (Hext "p" ["data1"; "read"]). vm_compute. reflexivity.
Defined.

(** X5: when no row of the table matches the pair, [addPolicy] followed by
    [removePolicy] of the same pair gives back the rows the table had; only
    the identifier counter has moved on. *)
Theorem addPolicy_removePolicy_restores sec ptype (rule : list string) t :
  Forall (λ row, ¬ spec_match ptype rule row) (rows t) →
  removePolicy sec ptype rule (addPolicy sec ptype rule t).2 =
  (Ok (), {| rows := rows t; nextId := S (nextId t) |}).
Proof.
  intros Hno. rewrite removePolicy_run, addPolicy_run. simpl.
  rewrite filter_app, filter_cons_False, filter_nil, app_nil_r.
  - by rewrite filter_all.
  - intros Hn. apply Hn, stored_matches.
Qed.

Lemma addPolicy_removePolicy_restores_witness :
  let t := (addPolicy "p" "p" ["bob"; "data2"; "write"] emptyTable).2 in
  Forall (λ row, ¬ spec_match "p" ["alice"; "data1"; "read"] row) (rows t) ∧
  removePolicy "p" "p" ["alice"; "data1"; "read"]
    (addPolicy "p" "p" ["alice"; "data1"; "read"] t).2 =
  (Ok (), {| rows := rows t; nextId := 3 |}).
Proof.
  intros t.
  assert (Hno : Forall (λ row, ¬ spec_match "p" ["alice"; "data1"; "read"] row) (rows t)).
  { apply (bool_decide_unpack _). vm_compute. exact I. }
  split; [exact Hno|].
  exact (addPolicy_removePolicy_restores "p" "p" ["alice"; "data1"; "read"] t Hno).
Defined.

(** X6: [removePolicy] is idempotent, and two [removePolicy] calls give the
    same table in either order. *)
Theorem removePolicy_idempotent_commutes sec1 ptype1 (rule1 : list string)
    sec2 ptype2 (rule2 : list string) t :
  removePolicy sec1 ptype1 rule1 (removePolicy sec1 ptype1 rule1 t).2 =
    removePolicy sec1 ptype1 rule1 t ∧
  removePolicy sec2 ptype2 rule2 (removePolicy sec1 ptype1 rule1 t).2 =
    removePolicy sec1 ptype1 rule1 (removePolicy sec2 ptype2 rule2 t).2.
Proof.
  rewrite !removePolicy_run. simpl. split.
  - do 2 f_equal. rewrite list_filter_filter. apply list_filter_iff. tauto.
  - do 2 f_equal. rewrite !list_filter_filter. apply list_filter_iff. tauto.
Qed.

(** X7: [removePolicy] only deletes: the rows it leaves are rows of the
    table, in their order, the identifier counter is unchanged, and every
    row whose [ptype] is not the given one is still there. *)
Theorem removePolicy_frame sec ptype (rule : list string) t :
  rows (removePolicy sec ptype rule t).2 `sublist_of` rows t ∧
  nextId (removePolicy sec ptype rule t).2 = nextId t ∧
  filter (λ row, row !! "ptype" ≠ Some (Str ptype)) (rows (removePolicy sec ptype rule t).2) =
  filter (λ row, row !! "ptype" ≠ Some (Str ptype)) (rows t).
Proof.
  rewrite removePolicy_run. simpl.
  split; [apply sublist_filter|]. split; [done|].
  rewrite list_filter_filter. apply list_filter_iff.
  intros row. unfold spec_match. tauto.
Qed.

(** ** The outcome of savePolicy on any model *)

(** X9: [savePolicy] completes, with [true], exactly when the model holds
    both the [p] and the [g] section, and otherwise raises a [TypeError].
    In every case the rows the table had before the call are gone; when
    only the [g] section is missing the rows of the [p] section are already
    written when the error is raised.  The outcome never depends on the
    table before the call. *)
Theorem savePolicy_outcome m t :
  savePolicy m t =
    match Map_get (model m) "p", Map_get (model m) "g" with
    | None, _ => (Throw (TypeError "undefined is not iterable"), emptyTable)
    | Some pm, None =>
        (Throw (TypeError "undefined is not iterable"),
         {| rows := insertedRows 1 (pairsOf pm); nextId := 1 + length (pairsOf pm) |})
    | Some pm, Some gm =>
        (Ok true, {| rows := insertedRows 1 (pairsOf pm ++ pairsOf gm);
                     nextId := 1 + length (pairsOf pm ++ pairsOf gm) |})
    end ∧
  ∀ t', savePolicy m t' = savePolicy m t.
Proof.
  assert (Hout : ∀ t0, savePolicy m t0 =
    match Map_get (model m) "p", Map_get (model m) "g" with
    | None, _ => (Throw (TypeError "undefined is not iterable"), emptyTable)
    | Some pm, None =>
        (Throw (TypeError "undefined is not iterable"),
         {| rows := insertedRows 1 (pairsOf pm); nextId := 1 + length (pairsOf pm) |})
    | Some pm, Some gm =>
        (Ok true, {| rows := insertedRows 1 (pairsOf pm ++ pairsOf gm);
                     nextId := 1 + length (pairsOf pm ++ pairsOf gm) |})
    end).
  { intros t0.
    destruct (Map_get (model m) "p") as [pm|] eqn:Hp;
      [|by apply savePolicy_missing_p].
    destruct (Map_get (model m) "g") as [gm|] eqn:Hg;
      [by apply savePolicy_run|by apply savePolicy_missing_g]. }
  split; [apply Hout|]. intros t'. by rewrite !Hout.
Qed.

(** ** Well-formed tables are kept *)

Lemma row_ok_mono n n' row : n ≤ n' → row_ok n row → row_ok n' row.
Proof.
  intros Hle ((i & Hid & Hlt) & Hp & Hf).
  split; [exists i; split; [done|lia]|done].
Qed.

Lemma stored_row_ok id ptype (rule : list string) :
  row_ok (S id) (stored id (savePolicyLine ptype rule)).
Proof.
  split; [exists id; split; [apply stored_id|lia]|].
  split; [exists ptype; apply stored_ptype_lookup|].
  exists (take 6 rule). split; [rewrite length_take; lia|].
  intros k key Hkey. rewrite (stored_field_lookup _ _ _ k) by done.
  apply lookup_lt_Some in Hkey. simpl in Hkey.
  unfold cell. by rewrite lookup_take_lt.
Qed.

Lemma table_ok_empty : table_ok emptyTable.
Proof. split; [constructor|simpl; constructor]. Qed.

Lemma save_ok ptype (rule : list string) t :
  table_ok t → table_ok (save (savePolicyLine ptype rule) t).2.
Proof.
  intros [Hrows Hnd]. unfold save, table_ok. simpl. split.
  - apply Forall_app. split.
    + eapply Forall_impl; [exact Hrows|]. intros row. apply row_ok_mono. lia.
    + constructor; [apply stored_row_ok|constructor].
  - rewrite fmap_app. apply NoDup_app. split; [done|]. split.
    + intros x Hx Hnew.
      apply list_elem_of_fmap in Hx as (row & -> & Hin).
      rewrite Forall_forall in Hrows.
      destruct (Hrows row Hin) as ((i & Hid & Hlt) & _).
      apply list_elem_of_singleton in Hnew.
      unfold row_id, getDataValue in Hnew. rewrite Hid, stored_id in Hnew.
      simpl in Hnew. injection Hnew as ->. lia.
    + simpl. apply NoDup_singleton.
Qed.

Lemma inserted_ok prs t :
  table_ok t →
  table_ok {| rows := rows t ++ insertedRows (nextId t) prs;
              nextId := nextId t + length prs |}.
Proof.
  revert t. induction prs as [|[ptype rule] prs IH]; intros t Hok.
  - simpl. rewrite app_nil_r, Nat.add_0_r. by destruct t.
  - specialize (IH _ (save_ok ptype rule t Hok)). simpl in IH |- *.
    rewrite <- app_assoc in IH. simpl in IH.
    by replace (nextId t + S (length prs)) with (S (nextId t + length prs)) by lia.
Qed.

Lemma filter_ok (P : gmap string value → Prop) `{∀ row, Decision (P row)} t :
  table_ok t → table_ok {| rows := filter P (rows t); nextId := nextId t |}.
Proof.
  intros [Hrows Hnd]. split; simpl.
  - apply Forall_forall. intros row Hin.
    apply list_elem_of_filter in Hin as [_ Hin].
    rewrite Forall_forall in Hrows. by apply Hrows.
  - eapply sublist_NoDup; [exact Hnd|].
    apply (fmap_sublist row_id), sublist_filter.
Qed.

Lemma serve_ok H r t : table_ok t → table_ok (serve H r t).
Proof.
  intros Hok.
  destruct r as [m|m|sec ptype rule|sec ptype rule|sec ptype i vs]; cbn [serve].
  - by rewrite loadPolicy_run.
  - destruct (Map_get (model m) "p") as [pm|] eqn:Hp.
    + destruct (Map_get (model m) "g") as [gm|] eqn:Hg.
      * rewrite (savePolicy_run m t pm gm Hp Hg).
        apply (inserted_ok (pairsOf pm ++ pairsOf gm) emptyTable table_ok_empty).
      * rewrite (savePolicy_missing_g m t pm Hp Hg).
        apply (inserted_ok (pairsOf pm) emptyTable table_ok_empty).
    + rewrite (savePolicy_missing_p m t Hp). apply table_ok_empty.
  - by apply save_ok.
  - rewrite removePolicy_run. by apply filter_ok.
  - exact Hok.
Qed.

(** X8: every call of the engine keeps the table well formed, whether it
    returns or raises: each row has a number as [id], different from the
    [id] of every other row, a string as [ptype], and fields that are those
    of a tuple of at most six strings filled in from the front, so without
    gaps.  It holds of every table reached from a well-formed one, the
    empty one among them. *)
Theorem adapter_keeps_table_ok H (rs : list request) t :
  table_ok t → table_ok (serveAll H rs t).
Proof.
  unfold serveAll. revert t.
  induction rs as [|r rs IH]; intros t Hok; [done|].
  simpl. by apply IH, serve_ok.
Qed.

Lemma adapter_keeps_table_ok_witness :
  table_ok emptyTable ∧
  table_ok (serveAll recordingLoader
              [AddPolicy "p" "p" ["carol"; ""; "read"];
               SavePolicy exampleModel;
               AddPolicy "p" "p" ["a"; "b"; "c"; "d"; "e"; "f"; "g"];
               RemovePolicy "p" "p" ["bob"];
               RemoveFilteredPolicy "p" "p" 0 ["alice"];
               LoadPolicy {| model := [] |}]
              emptyTable).
Proof.
  split; [exact table_ok_empty|].
  apply adapter_keeps_table_ok. exact table_ok_empty.
Defined.

(** ** Opening and closing an adapter *)

Import Connection.

(** X10: [newAdapter] returns an adapter when none of its calls fails, and
    only then.  With [dbSpecified] it makes one connection, to [connStr],
    and sends no query; without, it first connects to [connStr], sends
    CREATE DATABASE IF NOT EXISTS casbin and closes that connection, and
    then connects to [connStr] followed by [casbin].  The adapter returned
    holds the last connection; the registry maps it to a fresh class
    extending [CasbinRule], whose table was synced and which
    [getCasbinRuleModel] answers. *)
Theorem newAdapter_opens fails connStr dbSpecified w :
  (∀ a w', newAdapter fails connStr dbSpecified w = (Ok a, w') →
     let s := if dbSpecified then objects w else S (objects w) in
     let Rule := Extends CasbinRuleClass (classes w) in
     a = {| connStr := connStr; dbSpecified := dbSpecified; sequelize := Some s |} ∧
     calls w' = calls w ++ script connStr dbSpecified (objects w) (classes w) ∧
     Forall (λ c, fails c = None) (script connStr dbSpecified (objects w) (classes w)) ∧
     modelMap w' = <[s := Rule]> (modelMap w) ∧
     getCasbinRuleModel a w' = (Ok Rule, w')) ∧
  (Forall (λ c, fails c = None) (script connStr dbSpecified (objects w) (classes w)) →
   ∃ a w', newAdapter fails connStr dbSpecified w = (Ok a, w')).
Proof.
  split.
  - intros a w' Hrun. unfold_io.
    destruct dbSpecified; simpl in Hrun;
      rewrite ?lookup_insert_eq in Hrun;
      repeat (rewrite ?lookup_insert_eq in Hrun; next_call fails Hrun);
      try discriminate Hrun;
      injection Hrun as <- <-; simpl;
      rewrite ?lookup_insert_eq, <- ?app_assoc; simpl;
      repeat split; repeat constructor; assumption.
  - intros Hall. unfold_io.
    destruct dbSpecified; simpl in Hall |- *;
      repeat match goal with
             | H : Forall _ (_ :: _) |- _ => apply Forall_cons in H as [? H]
             end;
      rewrite ?lookup_insert_eq;
      repeat match goal with
             | E : fails ?c = None |- _ => rewrite E; clear E; simpl
             end;
      rewrite ?lookup_insert_eq;
      repeat match goal with
             | E : fails ?c = None |- _ => rewrite E; clear E; simpl
             end;
      eauto.
Qed.

Lemma newAdapter_opens_witness :
  Forall (λ c, (λ _ : call, @None error) c = None) (script "mysql://localhost/" false 0 0) ∧
  ∃ a w', newAdapter (λ _, None) "mysql://localhost/" false start = (Ok a, w') ∧
          sequelize a = Some 1 ∧
          calls w' = script "mysql://localhost/" false 0 0 ∧
          modelMap w' !! 1 = Some (Extends CasbinRuleClass 0).
Proof.
  assert (Hall : Forall (λ c, (λ _ : call, @None error) c = None)
                   (script "mysql://localhost/" false 0 0))
    by (repeat constructor).
  split; [exact Hall|].
  destruct (newAdapter_opens (λ _, None) "mysql://localhost/" false start)
    as [Hok Hruns].
  destruct (Hruns Hall) as (a & w' & Hrun).
  destruct (Hok a w' Hrun) as (-> & Hcalls & _ & Hmap & _).
  eexists. exists w'. split; [exact Hrun|]. split; [reflexivity|].
  split; [exact Hcalls|]. rewrite Hmap. apply lookup_insert_eq.
Defined.



Lemma newAdapter_world fails connStr dbSpecified w r w' :
  newAdapter fails connStr dbSpecified w = (r, w') →
  objects w ≤ objects w' ∧ classes w ≤ classes w' ∧
  ((modelMap w' = modelMap w ∧ ∀ a, r ≠ Ok a) ∨
   ∃ s, objects w ≤ s ∧ s < objects w' ∧ classes w < classes w' ∧
        modelMap w' = <[s := Extends CasbinRuleClass (classes w)]> (modelMap w) ∧
        ∀ a, r = Ok a → sequelize a = Some s).
Proof.
  intros Hrun. unfold_io.
  destruct dbSpecified; simpl in Hrun;
    repeat (rewrite ?lookup_insert_eq in Hrun; next_call fails Hrun);
    injection Hrun as <- <-; simpl;
    (split; [lia|]); (split; [lia|]);
    first [left; split; [reflexivity|intros a; discriminate]
          | right; eexists; split; [|split; [|split; [|split; [reflexivity|]]]];
            [lia|lia|lia|intros a [= <-]; reflexivity]
          | right; eexists; split; [|split; [|split; [|split; [reflexivity|]]]];
            [lia|lia|lia|intros a; discriminate] ].
Qed.

Lemma close_world fails this w :
  modelMap (close fails this w).2 = modelMap w ∧
  objects (close fails this w).2 = objects w ∧
  classes (close fails this w).2 = classes w.
Proof.
  unfold close, perform, raise.
  destruct (sequelize this); [destruct (fails _)|]; done.
Qed.

Lemma registry_ok_insert w w' s :
  registry_ok w →
  objects w ≤ objects w' → s < objects w' → classes w < classes w' →
  modelMap w' = <[s := Extends CasbinRuleClass (classes w)]> (modelMap w) →
  registry_ok w'.
Proof.
  intros Hok Ho Hs Hc Hmap s0 cls Hl. rewrite Hmap in Hl.
  apply lookup_insert_Some in Hl as [[<- <-]|[Hne Hl]].
  - split; [done|]. eauto.
  - destruct (Hok s0 cls Hl) as (Hlt & n & -> & Hn). split; [lia|].
    exists n. split; [done|lia].
Qed.

Lemma registry_ok_same w w' :
  registry_ok w →
  objects w ≤ objects w' → classes w ≤ classes w' → modelMap w' = modelMap w →
  registry_ok w'.
Proof.
  intros Hok Ho Hc Hmap s0 cls Hl. rewrite Hmap in Hl.
  destruct (Hok s0 cls Hl) as (Hlt & n & -> & Hn). split; [lia|].
  exists n. split; [done|lia].
Qed.

Lemma session_step_registry fails c w :
  registry_ok w →
  registry_ok (session_step fails w c) ∧
  ∀ s cls, modelMap w !! s = Some cls →
           modelMap (session_step fails w c) !! s = Some cls.
Proof.
  intros Hok. destruct c as [connStr dbSpecified|this]; simpl.
  - destruct (newAdapter fails connStr dbSpecified w) as [r w'] eqn:Hrun.
    destruct (newAdapter_world _ _ _ _ _ _ Hrun)
      as (Ho & Hc & [[Hmap _]|(s & Hs1 & Hs2 & Hc' & Hmap & _)]); simpl.
    + split; [by eapply registry_ok_same|]. by rewrite Hmap.
    + split; [by eapply registry_ok_insert|].
      intros s0 cls Hl. rewrite Hmap, lookup_insert_ne; [done|].
      intros <-. destruct (Hok _ _ Hl) as [Hlt _]. lia.
  - destruct (close_world fails this w) as (Hmap & Ho & Hc).
    split; [eapply registry_ok_same; [done|lia|lia|done]|].
    intros s cls Hl. by rewrite Hmap.
Qed.

(** X12: whatever adapters are opened and closed, and whichever calls fail,
    the registry only grows: an entry is never removed or changed, also not
    by [close], so [getCasbinRuleModel] keeps answering, for every adapter
    that has an entry, the class registered when it was opened. *)
Theorem registry_only_grows fails (cs : list session_call) w :
  registry_ok w →
  registry_ok (session fails cs w) ∧
  (∀ s cls, modelMap w !! s = Some cls →
            modelMap (session fails cs w) !! s = Some cls) ∧
  (∀ this s cls, sequelize this = Some s → modelMap w !! s = Some cls →
     getCasbinRuleModel this (session fails cs w) = (Ok cls, session fails cs w)).
Proof.
  intros Hok.
  assert (Hkeep : registry_ok (session fails cs w) ∧
            ∀ s cls, modelMap w !! s = Some cls →
                     modelMap (session fails cs w) !! s = Some cls).
  { unfold session. revert w Hok.
    induction cs as [|c cs IH]; intros w Hok; [done|].
    simpl. destruct (session_step_registry fails c w Hok) as [Hok' Hsub].
    destruct (IH _ Hok') as [Hok'' Hsub']. split; [done|].
    intros s cls Hl. by apply Hsub', Hsub. }
  destruct Hkeep as [Hok' Hsub]. split; [done|]. split; [done|].
  intros this s cls Hs Hl. unfold getCasbinRuleModel.
  rewrite Hs. simpl. by rewrite (Hsub s cls Hl).
Qed.

Lemma registry_only_grows_witness :
  let w := (newAdapter (λ _, None) "mysql://localhost/" false start).2 in
  let this := {| connStr := "mysql://localhost/"; dbSpecified := false;
                 sequelize := Some 1 |} in
  let cs := [Session_close this;
             Session_newAdapter "mysql://localhost/casbin" true;
             Session_close this] in
  registry_ok w ∧
  getCasbinRuleModel this (session (λ _, None) cs w) =
    (Ok (Extends CasbinRuleClass 0), session (λ _, None) cs w).
Proof.
  intros w this cs.
  assert (Hok : registry_ok w).
  { intros s cls Hl. change (modelMap w) with (<[1 := Extends CasbinRuleClass 0]> (∅ : gmap nat RuleClass)) in Hl.
    apply lookup_insert_Some in Hl as [[<- <-]|[_ Hl]].
    - split; [simpl; lia|]. exists 0. split; [done|simpl; lia].
    - by rewrite lookup_empty in Hl. }
  split; [exact Hok|].
  destruct (registry_only_grows (λ _, None) cs w Hok) as (_ & _ & Hget).
  apply (Hget this 1). - reflexivity. - reflexivity.
Defined.

(** X13: on a world whose registry is sound, the adapter [newAdapter]
    returns holds a connection that had no entry in the registry, and is
    given a class that no entry holds: two adapters never share a
    connection or a class of rows. *)
Theorem newAdapter_fresh fails connStr dbSpecified w a w' :
  registry_ok w →
  newAdapter fails connStr dbSpecified w = (Ok a, w') →
  ∃ s Rule,
    sequelize a = Some s ∧
    modelMap w !! s = None ∧
    modelMap w' !! s = Some Rule ∧
    ∀ s0 cls, modelMap w !! s0 = Some cls → s0 ≠ s ∧ cls ≠ Rule.
Proof.
  intros Hok Hrun.
  destruct (newAdapter_world _ _ _ _ _ _ Hrun)
    as (Ho & Hc & [[_ Hno]|(s & Hs1 & Hs2 & Hc' & Hmap & Ha)]).
  - by destruct (Hno a).
  - exists s, (Extends CasbinRuleClass (classes w)).
    split; [by apply Ha|].
    assert (Hnone : modelMap w !! s = None).
    { destruct (modelMap w !! s) as [cls|] eqn:Hl; [|done].
      destruct (Hok _ _ Hl) as [Hlt _]. lia. }
    split; [done|]. split; [rewrite Hmap; apply lookup_insert_eq|].
    intros s0 cls Hl. destruct (Hok _ _ Hl) as (Hlt & n & -> & Hn).
    split; [lia|]. intros [= ->]. lia.
Qed.

Lemma newAdapter_fresh_witness :
  let w := (newAdapter (λ _, None) "mysql://localhost/" false start).2 in
  registry_ok w ∧
  ∃ a w', newAdapter (λ _, None) "mysql://localhost/casbin" true w = (Ok a, w') ∧
          sequelize a = Some 2 ∧
          modelMap w !! 2 = None ∧
          modelMap w' !! 1 = Some (Extends CasbinRuleClass 0) ∧
          modelMap w' !! 2 = Some (Extends CasbinRuleClass 1).
Proof.
  intros w.
  assert (Hok : registry_ok w).
  { intros s cls Hl.
    change (modelMap w) with (<[1 := Extends CasbinRuleClass 0]> (∅ : gmap nat RuleClass)) in Hl.
    apply lookup_insert_Some in Hl as [[<- <-]|[_ Hl]].
    - split; [simpl; lia|]. exists 0. split; [done|simpl; lia].
    - by rewrite lookup_empty in Hl. }
  split; [exact Hok|].
  destruct (newAdapter (λ _, None) "mysql://localhost/casbin" true w) as [r w'] eqn:Hrun.
  assert (Hr : ∃ a, r = Ok a ∧ sequelize a = Some 2 ∧
                    modelMap w' !! 1 = Some (Extends CasbinRuleClass 0) ∧
                    modelMap w' !! 2 = Some (Extends CasbinRuleClass 1)).
  { vm_compute in Hrun. injection Hrun as <- <-. eexists. repeat split. }
  destruct Hr as (a & -> & Ha & H1 & H2).
  destruct (newAdapter_fresh _ _ _ _ _ _ Hok Hrun) as (s & Rule & Hs & Hnone & _).
  rewrite Ha in Hs. injection Hs as <-.
  exists a, w'. repeat split; assumption.
Defined.

(** ** Lines read from a well-formed table *)

Lemma row_ok_line bound row :
  row_ok bound row →
  ∃ pr, storable pr ∧ loadedPair row = rulePair pr ∧ policyLine row = ruleLine pr.
Proof.
  intros (_ & (p & Hp) & (fields & Hlen & Hf)).
  exists (p, kept fields).
  assert (Hfields : lineFields row = Str <$> kept fields).
  { unfold lineFields, getDataValue, kept.
    rewrite (Hf 0 "v0"), (Hf 1 "v1"), (Hf 2 "v2"), (Hf 3 "v3"),
      (Hf 4 "v4"), (Hf 5 "v5") by done.
    simpl default. apply (filter_cells_take 6 fields). }
  split.
  - split; simpl.
    + unfold kept. etrans; [apply length_filter|]. rewrite length_take. lia.
    + apply Forall_forall. intros s Hin. unfold kept in Hin.
      by apply list_elem_of_filter in Hin as [Hne _].
  - unfold loadedPair, policyLine, rulePair, ruleLine, getDataValue.
    rewrite Hp, Hfields. done.
Qed.

(** X14: on a well-formed table, as every table the adapter fills is, each
    line [loadPolicy] hands to the loader is the line [ptype, v0, ..., vk]
    of a pair with a string as [ptype] and at most six fields, none of them
    empty; there is one line per row, in the order of the rows, and the
    table is left as it was. *)
Theorem loadPolicy_lines_well_formed H m t :
  table_ok t →
  ∃ prs, Forall storable prs ∧
         length prs = length (rows t) ∧
         loadedPairs t = rulePair <$> prs ∧
         loadPolicy H m t = (Ok (foldl (λ acc l, H l acc) m (ruleLine <$> prs)), t).
Proof.
  intros [Hrows _]. rewrite loadPolicy_run. unfold loadedPairs.
  assert (Hprs : ∃ prs, Forall storable prs ∧
                        length prs = length (rows t) ∧
                        loadedPair <$> rows t = rulePair <$> prs ∧
                        policyLine <$> rows t = ruleLine <$> prs).
  { induction Hrows as [|row rs Hrow _ (prs & Hst & Hlen & Hpairs & Hlines)].
    - exists []. by repeat split.
    - destruct (row_ok_line _ _ Hrow) as (pr & Hpr & Hpair & Hline).
      exists (pr :: prs). split; [by constructor|].
      split; [simpl; by rewrite Hlen|].
      by rewrite !fmap_cons, Hpair, Hline, Hpairs, Hlines. }
  destruct Hprs as (prs & Hst & Hlen & Hpairs & Hlines).
  exists prs. by rewrite Hlines.
Qed.

Lemma loadPolicy_lines_well_formed_witness :
  let t := serveAll recordingLoader
             [AddPolicy "p" "p" ["carol"; ""; "read"];
              AddPolicy "g" "g" ["carol"; "admin"]] emptyTable in
  table_ok t ∧
  ∃ prs, Forall storable prs ∧
         loadPolicy recordingLoader {| model := [] |} t =
           (Ok (foldl (λ acc l, recordingLoader l acc) {| model := [] |}
                  (ruleLine <$> prs)), t).
Proof.
  intros t.
  assert (Hok : table_ok t)
    by (apply (save_ok "g" ["carol"; "admin"]), (save_ok "p" ["carol"; ""; "read"]),
          table_ok_empty).
  split; [exact Hok|].
  destruct (loadPolicy_lines_well_formed recordingLoader {| model := [] |} t Hok)
    as (prs & Hst & _ & _ & Hload).
  exists prs. split; [exact Hst|exact Hload].
Defined.
